(** * WellnessHub backend: a shallow embedding of the Express server

    The server keeps four in-memory arrays ([users], [appointments],
    [contacts], [newsletters]) and exposes JSON routes over them.  Each route
    handler is embedded as a function from the request and the store to a
    response and the store after the request.  External collaborators
    (the clock, bcryptjs, jsonwebtoken, the nodemailer transport) are
    supplied per request by an environment record, so every statement below
    holds for all their possible behaviours.

    Conventions.
    - A request carries the JSON object parsed by [express.json()]; a
      handler runs to its response before the next request is handled.
    - A JavaScript string is a [string]: a sequence of code units, restricted
      to the code units below 256 (the Latin-1 block).
    - A JSON number is a [Z]: an integer-valued number, of magnitude below
      10^21 where its decimal rendering matters.
    - [console.log] / [console.error] lines are not observable by a client
      and are left out; their templates interpolate values that an earlier
      template of the same handler has already converted. *)

From Stdlib Require Import ZArith NArith Ascii String List Bool Lia Sorted.
From stdpp Require Import base option list strings pretty gmap.

Set Warnings "-register-all".

Local Open Scope string_scope.
Local Open Scope list_scope.
Local Open Scope Z_scope.

(** ** Strings *)

Module JsString.

(** White space as matched by [\s] and stripped by [String.prototype.trim],
    within the Latin-1 block: TAB, LF, VT, FF, CR, SP and NBSP. *)
Definition is_space (c : ascii) : bool :=
  let n := N_of_ascii c in
  ((9 <=? n) && (n <=? 13) || (n =? 32) || (n =? 160))%N.

(** Upper-case letters of the Latin-1 block: A-Z, and U+00C0..U+00DE
    without the multiplication sign U+00D7. *)
Definition is_upper (c : ascii) : bool :=
  let n := N_of_ascii c in
  ((65 <=? n) && (n <=? 90)
   || (192 <=? n) && (n <=? 222) && negb (n =? 215))%N.

Definition lower_char (c : ascii) : ascii :=
  if is_upper c then ascii_of_N (N_of_ascii c + 32) else c.

(** [String.prototype.toLowerCase] *)
Fixpoint toLowerCase (s : string) : string :=
  match s with
  | EmptyString => EmptyString
  | String c s' => String (lower_char c) (toLowerCase s')
  end.

Fixpoint trimStart (s : string) : string :=
  match s with
  | EmptyString => EmptyString
  | String c s' => if is_space c then trimStart s' else s
  end.

Fixpoint trimEnd (s : string) : string :=
  match s with
  | EmptyString => EmptyString
  | String c s' =>
      match trimEnd s' with
      | EmptyString => if is_space c then EmptyString else String c EmptyString
      | t => String c t
      end
  end.

(** [String.prototype.trim] *)
Definition trim (s : string) : string := trimEnd (trimStart s).

(** [String.prototype.split] with a one-character separator. *)
Fixpoint split (sep : ascii) (s : string) : list string :=
  match s with
  | EmptyString => [EmptyString]
  | String c s' =>
      if Ascii.eqb c sep then EmptyString :: split sep s'
      else match split sep s' with
           | [] => [String c EmptyString]
           | w :: ws => String c w :: ws
           end
  end.

End JsString.

(** ** Regular expressions

    The one regular expression of the program is anchored at both ends and
    used through [RegExp.prototype.test] without flags, so [test] is
    membership in its language; membership is computed with derivatives. *)

Module Regex.

Inductive regex : Type :=
| Void : regex
| Eps : regex
| Class (p : ascii -> bool) : regex
| Cat (r1 r2 : regex) : regex
| Alt (r1 r2 : regex) : regex
| Star (r : regex) : regex.

Definition Plus (r : regex) : regex := Cat r (Star r).

Fixpoint nullable (r : regex) : bool :=
  match r with
  | Void => false
  | Eps => true
  | Class _ => false
  | Cat r1 r2 => nullable r1 && nullable r2
  | Alt r1 r2 => nullable r1 || nullable r2
  | Star _ => true
  end.

Fixpoint deriv (c : ascii) (r : regex) : regex :=
  match r with
  | Void => Void
  | Eps => Void
  | Class p => if p c then Eps else Void
  | Cat r1 r2 =>
      if nullable r1 then Alt (Cat (deriv c r1) r2) (deriv c r2)
      else Cat (deriv c r1) r2
  | Alt r1 r2 => Alt (deriv c r1) (deriv c r2)
  | Star r1 => Cat (deriv c r1) (Star r1)
  end.

Fixpoint test (r : regex) (s : string) : bool :=
  match s with
  | EmptyString => nullable r
  | String c s' => test (deriv c r) s'
  end.

End Regex.

(** ** JavaScript values and completions *)

(** A value read from a parsed JSON body.  [VUndefined] is what reading an
    absent property gives; it never occurs inside a parsed body.  [VObj]
    lists the own properties of an object, with distinct keys. *)
Inductive value : Type :=
| VUndefined : value
| VNull : value
| VBool (b : bool) : value
| VNum (n : Z) : value
| VStr (s : string) : value
| VArr (xs : list value) : value
| VObj (fields : list (string * value)) : value.

(** The completion of an evaluation: a value, or a thrown exception. *)
Inductive result (A : Type) : Type :=
| Ok (a : A) : result A
| Throw : result A.
Arguments Ok {A} a.
Arguments Throw {A}.

Definition rbind {A B : Type} (m : result A) (k : A -> result B) : result B :=
  match m with
  | Ok a => k a
  | Throw => Throw
  end.

Module Js.

(** ToBoolean *)
Definition truthy (v : value) : bool :=
  match v with
  | VUndefined | VNull => false
  | VBool b => b
  | VNum n => negb (n =? 0)
  | VStr s => negb (String.eqb s "")
  | VArr _ | VObj _ => true
  end.

(** Own property of an object literal. *)
Fixpoint own (k : string) (fields : list (string * value)) : option value :=
  match fields with
  | [] => None
  | (k', v) :: rest => if String.eqb k' k then Some v else own k rest
  end.

(** ToString.  An array is joined with commas, [null] and [undefined]
    elements giving the empty string.  A plain object gives
    ["[object Object]"] through [Object.prototype.toString]; an own
    [toString] property parsed from JSON is not callable, and then neither
    [toString] nor [valueOf] yields a primitive: a [TypeError]. *)
Fixpoint toString (v : value) : result string :=
  match v with
  | VUndefined => Ok "undefined"
  | VNull => Ok "null"
  | VBool b => Ok (if b then "true" else "false")
  | VNum n => Ok (pretty n)
  | VStr s => Ok s
  | VArr xs =>
      (fix join (l : list value) : result string :=
         match l with
         | [] => Ok ""
         | x :: rest =>
             rbind (match x with
                    | VUndefined | VNull => Ok ""
                    | _ => toString x
                    end)
               (fun s =>
                  match rest with
                  | [] => Ok s
                  | _ :: _ => rbind (join rest) (fun r => Ok (s +:+ "," +:+ r))
                  end)
         end) xs
  | VObj fields =>
      match own "toString" fields with
      | Some _ => Throw
      | None => Ok "[object Object]"
      end
  end.

(** [v.toLowerCase()]: a method of strings only; on anything else the
    property is [undefined] (or the receiver is [null]/[undefined]) and
    the call throws a [TypeError]. *)
Definition toLowerCase (v : value) : result string :=
  match v with
  | VStr s => Ok (JsString.toLowerCase s)
  | _ => Throw
  end.

(** [v.trim()] *)
Definition trim (v : value) : result string :=
  match v with
  | VStr s => Ok (JsString.trim s)
  | _ => Throw
  end.

(** [v.length] for a truthy [v]. *)
Definition length (v : value) : value :=
  match v with
  | VStr s => VNum (Z.of_nat (String.length s))
  | VArr xs => VNum (Z.of_nat (List.length xs))
  | VObj fields => default VUndefined (own "length" fields)
  | _ => VUndefined
  end.

(** [Array.prototype.find] with a predicate that may throw. *)
Fixpoint find {A : Type} (p : A -> result bool) (l : list A) : result (option A) :=
  match l with
  | [] => Ok None
  | x :: rest =>
      rbind (p x) (fun b => if b then Ok (Some x) else find p rest)
  end.

(** [Array.prototype.slice(start)] with one argument. *)
Definition slice {A : Type} (start : Z) (l : list A) : list A :=
  let len := Z.of_nat (List.length l) in
  let k := if start <? 0 then Z.max (len + start) 0 else Z.min start len in
  skipn (Z.to_nat k) l.

End Js.

(** ** Data model *)

(** An element of [users].  The test account is pushed without [createdAt]. *)
Record user : Type := mkUser {
  user_id : Z;
  user_email : string;
  user_password : string;
  user_createdAt : option Z }.

(** An element of [appointments].  Only [email] is produced by a string
    method; the other fields are stored as received. *)
Record appointment : Type := mkAppointment {
  appt_id : Z;
  appt_firstName : value;
  appt_lastName : value;
  appt_email : string;
  appt_phone : value;
  appt_service : value;
  appt_date : value;
  appt_time : value;
  appt_message : value;
  appt_createdAt : Z }.

(** An element of [contacts]. *)
Record contact : Type := mkContact {
  contact_id : Z;
  contact_name : string;
  contact_email : string;
  contact_message : string;
  contact_createdAt : Z }.

(** An element of [newsletters]. *)
Record newsletter : Type := mkNewsletter {
  news_email : string;
  news_subscribedAt : Z }.

(** The four module-level arrays. *)
Record store : Type := mkStore {
  users : list user;
  appointments : list appointment;
  contacts : list contact;
  newsletters : list newsletter }.

Definition empty_store : store := mkStore [] [] [] [].

(** The JSON bodies the routes send. *)
Inductive body : Type :=
| ErrorBody (error : string) : body
| MessageBody (message : string) : body
| LoginBody (token : string) (id : Z) (email : string) (message : string) : body
| StatsBody (n_users n_appointments n_contacts n_newsletters : nat)
    (recentAppointments : list appointment) (recentContacts : list contact) : body.

Record response : Type := mkResponse {
  status : Z;
  payload : body }.

(** [res.status(code).json({ error })] and [res.json(b)] (status 200). *)
Definition error_response (code : Z) (msg : string) : response :=
  mkResponse code (ErrorBody msg).
Definition json_response (b : body) : response := mkResponse 200 b.

(** ** External collaborators *)

(** The decoded payload [jwt.verify] hands to its callback. *)
Record jwt_payload : Type := mkPayload {
  userId : Z;
  iat : Z;
  exp : Z }.

(** The errors of [jwt.verify]: a token that does not parse, a signature
    that does not match, a token past its expiry. *)
Inductive jwt_error : Type :=
| JwtMalformed
| JwtInvalidSignature
| JwtExpired.

(** The message handed to [transporter.sendMail]; [mail_html] lists the
    interpolated parts of the HTML template in order. *)
Record mail : Type := mkMail {
  mail_from : string;
  mail_to : value;
  mail_html : list string }.

(** What one request observes of the outside world. *)
Record env : Type := mkEnv {
  (** [Date.now()] *)
  date_now : Z;
  (** [new Date()] *)
  new_date : Z;
  (** [await bcrypt.hash(password, 10)] *)
  bcrypt_hash : value -> result string;
  (** [await bcrypt.compare(password, hash)] *)
  bcrypt_compare : value -> string -> result bool;
  (** [jwt.sign({ userId }, secret, { expiresIn: '24h' })] *)
  jwt_sign : Z -> result string;
  (** [jwt.verify(token, secret, callback)]: the callback's arguments *)
  jwt_verify : string -> jwt_error + jwt_payload;
  (** [transporter], [null] when the mail credentials are not configured;
      [sendMail] resolves or rejects *)
  transporter : option (mail -> result unit);
  (** [process.env.EMAIL_USER] *)
  EMAIL_USER : string;
  (** [process.env.ADMIN_EMAIL] *)
  ADMIN_EMAIL : option string;
  (** [x >= 6] for an operand [x] that is a string, an array or an object
      (the numeric coercion of such operands is not modelled) *)
  coerced_ge_6 : value -> bool }.

(** ** Handler monad: the store is threaded, an exception keeps the store *)

Definition M (A : Type) : Type := store -> result A * store.

Definition ret {A : Type} (a : A) : M A := fun st => (Ok a, st).

Definition bind {A B : Type} (m : M A) (k : A -> M B) : M B :=
  fun st =>
    match m st with
    | (Ok a, st') => k a st'
    | (Throw, st') => (Throw, st')
    end.

Definition lift {A : Type} (r : result A) : M A := fun st => (r, st).

Definition get : M store := fun st => (Ok st, st).

Definition put (st' : store) : M unit := fun _ => (Ok tt, st').

Notation "'let*' x ':=' m 'in' k" := (bind m (fun x => k))
  (at level 10, x name, m at level 100, k at level 200).
Notation "m ';;' k" := (bind m (fun _ => k))
  (at level 100, k at level 200, right associativity).

(** [try { body } catch (error) { res.status(500).json(...) }] *)
Definition try_catch (m : M response) (handler : response) (st : store)
  : response * store :=
  match m st with
  | (Ok r, st') => (r, st')
  | (Throw, st') => (handler, st')
  end.

(** [users.push(u)] and its siblings. *)
Definition push_user (u : user) : M unit :=
  fun st => (Ok tt, mkStore (users st ++ [u]) (appointments st) (contacts st) (newsletters st)).
Definition push_appointment (a : appointment) : M unit :=
  fun st => (Ok tt, mkStore (users st) (appointments st ++ [a]) (contacts st) (newsletters st)).
Definition push_contact (c : contact) : M unit :=
  fun st => (Ok tt, mkStore (users st) (appointments st) (contacts st ++ [c]) (newsletters st)).
Definition push_newsletter (n : newsletter) : M unit :=
  fun st => (Ok tt, mkStore (users st) (appointments st) (contacts st) (newsletters st ++ [n])).

(** [req.body.k]: a parsed JSON object read by destructuring. *)
Definition prop (b : gmap string value) (k : string) : value :=
  default VUndefined (b !! k).

(** ** Validation helpers *)

(** The class [[^\s@]]. *)
Definition not_space_at (c : ascii) : bool :=
  negb (JsString.is_space c || Ascii.eqb c "@").

(** [/^[^\s@]+@[^\s@]+\.[^\s@]+$/] *)
Definition emailRegex : Regex.regex :=
  Regex.Cat (Regex.Plus (Regex.Class not_space_at))
    (Regex.Cat (Regex.Class (Ascii.eqb "@"))
       (Regex.Cat (Regex.Plus (Regex.Class not_space_at))
          (Regex.Cat (Regex.Class (Ascii.eqb "."))
             (Regex.Plus (Regex.Class not_space_at))))).

(** [validateEmail]: [test] converts its argument with ToString. *)
Definition validateEmail (email : value) : result bool :=
  rbind (Js.toString email) (fun s => Ok (Regex.test emailRegex s)).

(** [x >= 6]: a number is compared, [undefined] is NaN, [null] and the
    booleans are 0 or 1; the other operands are left to [coerced_ge_6]. *)
Definition ge_6 (e : env) (x : value) : bool :=
  match x with
  | VNum n => 6 <=? n
  | VUndefined | VNull | VBool _ => false
  | _ => coerced_ge_6 e x
  end.

(** [validatePassword], as the condition it is used for. *)
Definition validatePassword (e : env) (password : value) : bool :=
  Js.truthy password && ge_6 e (Js.length password).

(** ** Auth middleware *)

(** [authHeader && authHeader.split(' ')[1]], [None] standing for
    [undefined]. *)
Definition bearer_token (authHeader : option string) : option string :=
  match authHeader with
  | None => None
  | Some h => if String.eqb h "" then Some "" else JsString.split " " h !! 1%nat
  end.

(** [authenticateToken]: either a response is sent, or [next()] is called
    with [req.user] set to the decoded payload. *)
Definition authenticateToken (e : env) (authHeader : option string)
  : response + jwt_payload :=
  match bearer_token authHeader with
  | None | Some EmptyString => inl (error_response 401 "Access token required")
  | Some token =>
      match jwt_verify e token with
      | inl _ => inl (error_response 403 "Invalid token")
      | inr user => inr user
      end
  end.

(** ** Route handlers *)

Definition user_with_email (email : string) (l : list user) : option user :=
  List.find (fun u => String.eqb (user_email u) email) l.

Definition subscription_with_email (email : string) (l : list newsletter)
  : option newsletter :=
  List.find (fun n => String.eqb (news_email n) email) l.

(** [createTestUser], with the hash of the test password.  The function is
    called while the module loads: its check reads [users] as it is then,
    the empty array just declared, and its push runs when [bcrypt.hash]
    resolves, on the array as it is by then ([st]). *)
Definition createTestUser (hashedPassword : string) (st : store) : store :=
  let testEmail := "test@wellnesshub.com" in
  match user_with_email testEmail (users empty_store) with
  | Some _ => st
  | None =>
      mkStore (users st ++ [mkUser 1 testEmail hashedPassword None])
        (appointments st) (contacts st) (newsletters st)
  end.

(** [POST /api/auth/login] *)
Definition post_auth_login (e : env) (b : gmap string value) : store -> response * store :=
  try_catch
    (let email := prop b "email" in
     let password := prop b "password" in
     if negb (Js.truthy email) || negb (Js.truthy password) then
       ret (error_response 400 "Email and password are required")
     else
     let* valid := lift (validateEmail email) in
     if negb valid then ret (error_response 400 "Invalid email format") else
     let* st := get in
     let* user :=
       lift (Js.find
               (fun u => rbind (Js.toLowerCase email)
                           (fun l => Ok (String.eqb (user_email u) l)))
               (users st)) in
     match user with
     | None => ret (error_response 401 "Invalid credentials")
     | Some u =>
         let* isValidPassword := lift (bcrypt_compare e password (user_password u)) in
         if negb isValidPassword then
           ret (error_response 401 "Invalid credentials")
         else
         let* token := lift (jwt_sign e (user_id u)) in
         ret (json_response
                (LoginBody token (user_id u) (user_email u) "Login successful"))
     end)
    (error_response 500 "Internal server error").

(** [POST /api/auth/register] *)
Definition post_auth_register (e : env) (b : gmap string value) : store -> response * store :=
  try_catch
    (let email := prop b "email" in
     let password := prop b "password" in
     if negb (Js.truthy email) || negb (Js.truthy password) then
       ret (error_response 400 "Email and password are required")
     else
     let* valid := lift (validateEmail email) in
     if negb valid then ret (error_response 400 "Invalid email format") else
     if negb (validatePassword e password) then
       ret (error_response 400 "Password must be at least 6 characters")
     else
     let* normalizedEmail := lift (Js.toLowerCase email) in
     let* st := get in
     match user_with_email normalizedEmail (users st) with
     | Some _ => ret (error_response 400 "User already exists")
     | None =>
         let* hashedPassword := lift (bcrypt_hash e password) in
         let user := mkUser (date_now e) normalizedEmail hashedPassword
                       (Some (new_date e)) in
         push_user user ;;
         ret (json_response (MessageBody "User registered successfully"))
     end)
    (error_response 500 "Internal server error").

(** The template literal of a notification: each interpolated value is
    converted with ToString, in order. *)
Fixpoint interpolate (holes : list value) : result (list string) :=
  match holes with
  | [] => Ok []
  | v :: rest =>
      rbind (Js.toString v) (fun s =>
      rbind (interpolate rest) (fun ss => Ok (s :: ss)))
  end.

(** [if (transporter) { await transporter.sendMail(m) } else { console.log }] *)
Definition deliver (e : env) (m : mail) : result unit :=
  match transporter e with
  | Some sendMail => sendMail m
  | None => Ok tt
  end.

Definition notify (e : env) (m : mail) : M unit := lift (deliver e m).

(** [POST /api/appointments] *)
Definition post_appointments (e : env) (b : gmap string value) : store -> response * store :=
  try_catch
    (let firstName := prop b "firstName" in
     let lastName := prop b "lastName" in
     let email := prop b "email" in
     let phone := prop b "phone" in
     let service := prop b "service" in
     let date := prop b "date" in
     let time := prop b "time" in
     let message := prop b "message" in
     if negb (Js.truthy firstName) || negb (Js.truthy lastName)
        || negb (Js.truthy email) || negb (Js.truthy phone)
        || negb (Js.truthy service) || negb (Js.truthy date)
        || negb (Js.truthy time) then
       ret (error_response 400 "All required fields must be filled")
     else
     let* valid := lift (validateEmail email) in
     if negb valid then ret (error_response 400 "Invalid email format") else
     let* lowered := lift (Js.toLowerCase email) in
     let appointment :=
       mkAppointment (date_now e) firstName lastName lowered phone service
         date time (if Js.truthy message then message else VStr "")
         (new_date e) in
     push_appointment appointment ;;
     let* emailContent :=
       lift (interpolate
               ([firstName; lastName; service; date; time; phone]
                  ++ (if Js.truthy message then [message] else []))) in
     notify e (mkMail (EMAIL_USER e) email emailContent) ;;
     ret (json_response
            (MessageBody
               "Appointment booked successfully! Check your email for confirmation.")))
    (error_response 500 "Failed to book appointment").

(** [POST /api/contact] *)
Definition post_contact (e : env) (b : gmap string value) : store -> response * store :=
  try_catch
    (let name := prop b "name" in
     let email := prop b "email" in
     let message := prop b "message" in
     if negb (Js.truthy name) || negb (Js.truthy email)
        || negb (Js.truthy message) then
       ret (error_response 400 "All fields are required")
     else
     let* valid := lift (validateEmail email) in
     if negb valid then ret (error_response 400 "Invalid email format") else
     let* trimmedName := lift (Js.trim name) in
     let* lowered := lift (Js.toLowerCase email) in
     let* trimmedMessage := lift (Js.trim message) in
     let contact :=
       mkContact (date_now e) trimmedName lowered trimmedMessage (new_date e) in
     push_contact contact ;;
     let emailContent :=
       [contact_name contact; contact_email contact; contact_message contact] in
     let admin :=
       match ADMIN_EMAIL e with
       | Some a => if String.eqb a "" then EMAIL_USER e else a
       | None => EMAIL_USER e
       end in
     notify e (mkMail (EMAIL_USER e) (VStr admin) emailContent) ;;
     ret (json_response
            (MessageBody "Message sent successfully! We'll get back to you soon.")))
    (error_response 500 "Failed to send message").

(** [POST /api/newsletter] *)
Definition post_newsletter (e : env) (b : gmap string value) : store -> response * store :=
  try_catch
    (let email := prop b "email" in
     if negb (Js.truthy email) then
       ret (error_response 400 "Email is required")
     else
     let* valid := lift (validateEmail email) in
     if negb valid then ret (error_response 400 "Invalid email format") else
     let* normalizedEmail := lift (Js.toLowerCase email) in
     let* st := get in
     match subscription_with_email normalizedEmail (newsletters st) with
     | Some _ => ret (error_response 400 "Email already subscribed")
     | None =>
         push_newsletter (mkNewsletter normalizedEmail (new_date e)) ;;
         ret (json_response (MessageBody "Successfully subscribed to our newsletter!"))
     end)
    (error_response 500 "Subscription failed").

(** The body of [GET /api/admin/stats], run once [authenticateToken] has
    called [next()]. *)
Definition admin_stats (st : store) : response :=
  json_response
    (StatsBody (List.length (users st)) (List.length (appointments st))
       (List.length (contacts st)) (List.length (newsletters st))
       (Js.slice (-5) (appointments st)) (Js.slice (-5) (contacts st))).

(** [GET /api/admin/stats], behind [authenticateToken]. *)
Definition get_admin_stats (e : env) (authHeader : option string) (st : store)
  : response * store :=
  match authenticateToken e authHeader with
  | inl r => (r, st)
  | inr _ => (admin_stats st, st)
  end.

(** ** The server as a transition system *)

Inductive request : Type :=
| Login (b : gmap string value)
| Register (b : gmap string value)
| BookAppointment (b : gmap string value)
| Contact (b : gmap string value)
| Newsletter (b : gmap string value)
| AdminStats (authHeader : option string).

Definition handle (e : env) (r : request) : store -> response * store :=
  match r with
  | Login b => post_auth_login e b
  | Register b => post_auth_register e b
  | BookAppointment b => post_appointments e b
  | Contact b => post_contact e b
  | Newsletter b => post_newsletter e b
  | AdminStats h => get_admin_stats e h
  end.

(** One step: the push of the test account, or a request that is handled. *)
Inductive step : store -> store -> Prop :=
| step_startup hashedPassword st :
    step st (createTestUser hashedPassword st)
| step_request e r st :
    step st (snd (handle e r st)).

(** The states of a process: those reached from four empty arrays. *)
Definition reachable (st : store) : Prop := rtc step empty_store st.

(** A sequence of requests, each with what it observes of the world. *)
Fixpoint run (events : list (env * request)) (st : store) : store :=
  match events with
  | [] => st
  | (e, r) :: rest => run rest (snd (handle e r st))
  end.

(** ** Spec-side notions *)

(** The last [n] elements of a list, in their order. *)
Definition last_n {A : Type} (n : nat) (l : list A) : list A :=
  rev (firstn n (rev l)).

(** A capital letter: A-Z, or U+00C0..U+00DE other than the
    multiplication sign U+00D7. *)
Definition capital (c : ascii) : Prop :=
  let n := N_of_ascii c in
  (65 <= n <= 90 \/ (192 <= n <= 222 /\ n <> 215))%N.

(** A string is lowercase when it holds no capital letter. *)
Fixpoint lowercase (s : string) : Prop :=
  match s with
  | EmptyString => True
  | String c s' => ~ capital c /\ lowercase s'
  end.

(** Every stored email field is lowercase. *)
Definition emails_lowercase (st : store) : Prop :=
  Forall (fun u => lowercase (user_email u)) (users st)
  /\ Forall (fun a => lowercase (appt_email a)) (appointments st)
  /\ Forall (fun c => lowercase (contact_email c)) (contacts st)
  /\ Forall (fun n => lowercase (news_email n)) (newsletters st).

(** Two characters that no class of [r] tells apart. *)
Fixpoint respects (c c' : ascii) (r : Regex.regex) : Prop :=
  match r with
  | Regex.Void | Regex.Eps => True
  | Regex.Class p => p c = p c'
  | Regex.Cat r1 r2 | Regex.Alt r1 r2 => respects c c' r1 /\ respects c c' r2
  | Regex.Star r1 => respects c c' r1
  end.

(** The ways token verification fails: no [Authorization] header, or a
    token that [jwt.verify] rejects (malformed, bad signature, expired). *)
Inductive verification_failure (e : env) : option string -> Prop :=
| missing_header : verification_failure e None
| rejected_token h token err :
    bearer_token (Some h) = Some token ->
    token <> "" ->
    jwt_verify e token = inl err ->
    verification_failure e (Some h).

(** The required fields of a booking are all truthy. *)
Definition booking_fields_present (b : gmap string value) : bool :=
  Js.truthy (prop b "firstName") && Js.truthy (prop b "lastName")
  && Js.truthy (prop b "email") && Js.truthy (prop b "phone")
  && Js.truthy (prop b "service") && Js.truthy (prop b "date")
  && Js.truthy (prop b "time").

(** The values interpolated into the confirmation of a booking. *)
Definition booking_holes (b : gmap string value) : list value :=
  [prop b "firstName"; prop b "lastName"; prop b "service"; prop b "date";
   prop b "time"; prop b "phone"]
    ++ (if Js.truthy (prop b "message") then [prop b "message"] else []).

(** A valid booking: the required fields are present, the email matches the
    pattern and is a string, with lowercase form [lowered]. *)
Definition booking_valid (b : gmap string value) (lowered : string) : Prop :=
  booking_fields_present b = true
  /\ validateEmail (prop b "email") = Ok true
  /\ Js.toLowerCase (prop b "email") = Ok lowered.

(** A valid booking whose confirmation renders, to [parts]. *)
Definition booking_accepted (b : gmap string value) (lowered : string)
    (parts : list string) : Prop :=
  booking_valid b lowered /\ interpolate (booking_holes b) = Ok parts.

(** The record a booking stores. *)
Definition booked (e : env) (b : gmap string value) (lowered : string)
  : appointment :=
  mkAppointment (date_now e) (prop b "firstName") (prop b "lastName") lowered
    (prop b "phone") (prop b "service") (prop b "date") (prop b "time")
    (if Js.truthy (prop b "message") then prop b "message" else VStr "")
    (new_date e).

(** The required fields of a contact message are all truthy. *)
Definition contact_fields_present (b : gmap string value) : bool :=
  Js.truthy (prop b "name") && Js.truthy (prop b "email")
  && Js.truthy (prop b "message").

(** A contact message that passes validation and type-checks at run time. *)
Definition contact_accepted (b : gmap string value)
    (name lowered message : string) : Prop :=
  contact_fields_present b = true
  /\ validateEmail (prop b "email") = Ok true
  /\ Js.trim (prop b "name") = Ok name
  /\ Js.toLowerCase (prop b "email") = Ok lowered
  /\ Js.trim (prop b "message") = Ok message.

(** [process.env.ADMIN_EMAIL || process.env.EMAIL_USER] *)
Definition admin_address (e : env) : string :=
  match ADMIN_EMAIL e with
  | Some a => if String.eqb a "" then EMAIL_USER e else a
  | None => EMAIL_USER e
  end.

(** The response of a handler whose notification completed with [r]. *)
Definition after_delivery (r : result unit) (success failure : string)
  : response :=
  match r with
  | Ok _ => json_response (MessageBody success)
  | Throw => error_response 500 failure
  end.

(** What a request appended to one of the arrays: what the array holds
    after the request beyond what it held before. *)
Definition appended {A : Type} (field : store -> list A) (st st' : store)
  : list A :=
  skipn (List.length (field st)) (field st').

(** The appends of a run to one of the arrays, in order, each with the
    request that made it and the world that request observed. *)
Fixpoint appends {A : Type} (field : store -> list A)
    (events : list (env * request)) (st : store) : list (env * request * A) :=
  match events with
  | [] => []
  | (e, r) :: rest =>
      let st' := snd (handle e r st) in
      map (fun a => (e, r, a)) (appended field st st') ++ appends field rest st'
  end.

(** The clock readings ([Date.now()]) of the requests of a list of appends. *)
Definition readings {A : Type} (log : list (env * request * A)) : list Z :=
  map (fun x => date_now (fst (fst x))) log.

(** An append is stamped by its request: the id of the record is the
    request's [Date.now()], its creation time the request's [new Date()]. *)
Definition stamped {A : Type} (id created : A -> Z) (x : env * request * A)
  : Prop :=
  id (snd x) = date_now (fst (fst x)) /\ created (snd x) = new_date (fst (fst x)).

(** A login request that passes the field checks: a string email matching
    the pattern and a truthy password. *)
Definition login_validated (b : gmap string value) (email : string) : Prop :=
  prop b "email" = VStr email
  /\ Regex.test emailRegex email = true
  /\ Js.truthy (prop b "password") = true.

(** The two ways a login fails authentication: the email is not registered,
    or [bcrypt.compare] answers [false] for the registered user. *)
Inductive authentication_failure (e : env) (b : gmap string value) (st : store)
  : Prop :=
| unknown_email email :
    login_validated b email ->
    user_with_email (JsString.toLowerCase email) (users st) = None ->
    authentication_failure e b st
| wrong_password email u :
    login_validated b email ->
    user_with_email (JsString.toLowerCase email) (users st) = Some u ->
    bcrypt_compare e (prop b "password") (user_password u) = Ok false ->
    authentication_failure e b st.

(** ** A sample world, for concrete runs *)

Definition sample_hash (password : value) : result string :=
  match password with
  | VStr s => Ok ("$2a$10$" +:+ s)
  | _ => Throw
  end.

Definition sample_compare (password : value) (hash : string) : result bool :=
  match password with
  | VStr s => Ok (String.eqb ("$2a$10$" +:+ s) hash)
  | _ => Throw
  end.

Definition sample_verify (token : string) : jwt_error + jwt_payload :=
  if String.eqb token "signed.1.token" then inr (mkPayload 1 0 86400)
  else if String.eqb token "signed.1.old" then inl JwtExpired
  else if String.eqb token "forged.1.token" then inl JwtInvalidSignature
  else inl JwtMalformed.

(** A world at clock reading [t], with the given transport. *)
Definition sample_env (t : Z) (tr : option (mail -> result unit)) : env :=
  mkEnv t t sample_hash sample_compare (fun _ => Ok "signed.1.token")
    sample_verify tr "hub@example.com" None (fun _ => false).

Definition json_object (fields : list (string * value)) : gmap string value :=
  list_to_map fields.

Definition sample_booking (firstName email : string) : gmap string value :=
  json_object
    [("firstName", VStr firstName); ("lastName", VStr "Lee");
     ("email", VStr email); ("phone", VStr "555-0100");
     ("service", VStr "massage"); ("date", VStr "2025-01-01");
     ("time", VStr "10:00")].

Definition sample_message (name email : string) : gmap string value :=
  json_object
    [("name", VStr name); ("email", VStr email); ("message", VStr " hello ")].

Definition sample_credentials (email password : string) : gmap string value :=
  json_object [("email", VStr email); ("password", VStr password)].

(** ** The language of a regular expression *)

(** The strings a regular expression denotes. *)
Inductive lang : Regex.regex -> string -> Prop :=
| lang_eps : lang Regex.Eps ""
| lang_class p c : p c = true -> lang (Regex.Class p) (String c "")
| lang_cat r1 r2 s1 s2 :
    lang r1 s1 -> lang r2 s2 -> lang (Regex.Cat r1 r2) (s1 +:+ s2)
| lang_alt_l r1 r2 s : lang r1 s -> lang (Regex.Alt r1 r2) s
| lang_alt_r r1 r2 s : lang r2 s -> lang (Regex.Alt r1 r2) s
| lang_star_nil r : lang (Regex.Star r) ""
| lang_star_cons r s1 s2 :
    lang r s1 -> lang (Regex.Star r) s2 -> lang (Regex.Star r) (s1 +:+ s2).

(** Every character of [s] satisfies [p]. *)
Fixpoint string_forall (p : ascii -> bool) (s : string) : bool :=
  match s with
  | EmptyString => true
  | String c s' => p c && string_forall p s'
  end.

(** A part of an address: one character or more, none of them white space
    or an at sign. *)
Definition address_part (s : string) : Prop :=
  s <> "" /\ string_forall not_space_at s = true.

(** The pieces of [JsString.split] put back together. *)
Fixpoint join (sep : ascii) (pieces : list string) : string :=
  match pieces with
  | [] => ""
  | [w] => w
  | w :: ws => w +:+ String sep (join sep ws)
  end.

(** White space only. *)
Definition blank (s : string) : bool := string_forall JsString.is_space s.

(** The first character, if any, is not white space. *)
Definition starts_clean (s : string) : bool :=
  match s with
  | EmptyString => true
  | String c _ => negb (JsString.is_space c)
  end.

(** The last character, if any, is not white space. *)
Fixpoint ends_clean (s : string) : bool :=
  match s with
  | EmptyString => true
  | String c EmptyString => negb (JsString.is_space c)
  | String _ s' => ends_clean s'
  end.

(** No white space at either end. *)
Definition trimmed (s : string) : Prop :=
  starts_clean s = true /\ ends_clean s = true.

(** ** Frontend client ([public/api.js])

    Each client function posts a JSON body with [fetch] and reads the JSON
    of the reply.  [fetch] is a parameter: it rejects with an error, or
    resolves with a reply whose [json()] resolves or rejects. *)

(** A thrown [Error]: its [name] and [message]. *)
Record js_error : Type := mkError {
  error_name : string;
  error_message : string }.

(** [new Error(message)] *)
Definition new_Error (message : string) : js_error := mkError "Error" message.

(** The [Response] of [fetch]: its [status], and what [json()] gives. *)
Record http_reply : Type := mkReply {
  reply_status : Z;
  reply_json : js_error + body }.

(** The request handed to [fetch]: the URL and the object that is
    serialized as the body; the method is [POST] and the content type JSON
    throughout.  ([JSON.stringify] leaves out a property whose value is
    [undefined]; the server reads such a property as [undefined] either
    way.) *)
Record http_request : Type := mkRequest {
  request_url : string;
  request_body : gmap string value }.

Definition API_BASE : string := "http://localhost:3000/api".

(** [response.ok]: a status in the range 200-299. *)
Definition reply_ok (r : http_reply) : bool :=
  (200 <=? reply_status r) && (reply_status r <=? 299).

(** [String.prototype.includes] *)
Fixpoint includes (needle s : string) : bool :=
  match s with
  | EmptyString => String.eqb needle ""
  | String _ s' => String.prefix needle s || includes needle s'
  end.

(** The [try] block shared by the checking client functions: post, throw on
    a status outside 200-299, read the JSON. *)
Definition post_checked (fetch : http_request -> js_error + http_reply)
    (path : string) (data : gmap string value) : js_error + body :=
  match fetch (mkRequest (API_BASE +:+ path) data) with
  | inl error => inl error
  | inr response =>
      if negb (reply_ok response) then
        inl (new_Error ("HTTP error! status: " +:+ pretty (reply_status response)))
      else reply_json response
  end.

(** The [catch] block of [login] and [register]: a [TypeError] that
    mentions fetch is replaced, any other error is thrown again. *)
Definition catch_connection (attempt : js_error + body) : js_error + body :=
  match attempt with
  | inr data => inr data
  | inl error =>
      if String.eqb (error_name error) "TypeError"
         && includes "fetch" (error_message error)
      then inl (new_Error
                  "Cannot connect to server. Please make sure the backend is running.")
      else inl error
  end.

(** [login(email, password)] *)
Definition api_login (fetch : http_request -> js_error + http_reply)
    (email password : value) : js_error + body :=
  catch_connection
    (post_checked fetch "/auth/login"
       (json_object [("email", email); ("password", password)])).

(** [register(email, password)] *)
Definition api_register (fetch : http_request -> js_error + http_reply)
    (email password : value) : js_error + body :=
  catch_connection
    (post_checked fetch "/auth/register"
       (json_object [("email", email); ("password", password)])).

(** [bookAppointment(appointmentData)]: no status check, no [catch]. *)
Definition api_bookAppointment (fetch : http_request -> js_error + http_reply)
    (appointmentData : gmap string value) : js_error + body :=
  match fetch (mkRequest (API_BASE +:+ "/appointments") appointmentData) with
  | inl error => inl error
  | inr response => reply_json response
  end.

(** [sendContact(contactData)]: the [catch] logs and throws again. *)
Definition api_sendContact (fetch : http_request -> js_error + http_reply)
    (contactData : gmap string value) : js_error + body :=
  post_checked fetch "/contact" contactData.

(** [subscribeNewsletter(email)] *)
Definition api_subscribeNewsletter (fetch : http_request -> js_error + http_reply)
    (email : value) : js_error + body :=
  post_checked fetch "/newsletter" (json_object [("email", email)]).

(** A [fetch] whose request reaches the given route handler of the server
    in state [st] and is answered by it. *)
Definition answered_by (handler : gmap string value -> store -> response * store)
    (st : store) (request : http_request) : js_error + http_reply :=
  let r := fst (handler (request_body request) st) in
  inr (mkReply (status r) (inr (payload r))).

(** ** Further invariants *)

(** Every array of [st'] starts with the array of [st]. *)
Definition extends (st st' : store) : Prop :=
  users st `prefix_of` users st'
  /\ appointments st `prefix_of` appointments st'
  /\ contacts st `prefix_of` contacts st'
  /\ newsletters st `prefix_of` newsletters st'.

(** The number of records held. *)
Definition records (st : store) : nat :=
  (List.length (users st) + List.length (appointments st)
   + List.length (contacts st) + List.length (newsletters st))%nat.

(** Every stored contact has a trimmed name and a trimmed message. *)
Definition contacts_trimmed (st : store) : Prop :=
  Forall (fun c => trimmed (contact_name c) /\ trimmed (contact_message c))
    (contacts st).

(** The string has no space character. *)
Definition spaceless (s : string) : bool :=
  string_forall (fun c => negb (Ascii.eqb c " ")) s.

(** * Properties *)

(** ** Strings and the email pattern *)

Lemma lower_char_idem (c : ascii) :
  JsString.lower_char (JsString.lower_char c) = JsString.lower_char c.
Proof. destruct c as [[] [] [] [] [] [] [] []]; reflexivity. Qed.

Lemma lower_char_space (c : ascii) :
  JsString.is_space (JsString.lower_char c) = JsString.is_space c.
Proof. destruct c as [[] [] [] [] [] [] [] []]; reflexivity. Qed.

Lemma lower_char_eqb_at (c : ascii) :
  Ascii.eqb (JsString.lower_char c) "@" = Ascii.eqb c "@".
Proof. destruct c as [[] [] [] [] [] [] [] []]; reflexivity. Qed.

Lemma lower_char_is_at (c : ascii) :
  Ascii.eqb "@" (JsString.lower_char c) = Ascii.eqb "@" c.
Proof. destruct c as [[] [] [] [] [] [] [] []]; reflexivity. Qed.

Lemma lower_char_eqb_dot (c : ascii) :
  Ascii.eqb "." (JsString.lower_char c) = Ascii.eqb "." c.
Proof. destruct c as [[] [] [] [] [] [] [] []]; reflexivity. Qed.

Lemma toLowerCase_idem (s : string) :
  JsString.toLowerCase (JsString.toLowerCase s) = JsString.toLowerCase s.
Proof.
  induction s as [|c s IH]; simpl; [reflexivity|].
  now rewrite lower_char_idem, IH.
Qed.

Lemma lower_char_not_capital (c : ascii) : ~ capital (JsString.lower_char c).
Proof.
  destruct c as [[] [] [] [] [] [] [] []]; unfold capital; vm_compute;
    intuition congruence.
Qed.

Lemma toLowerCase_lowercase (s : string) : lowercase (JsString.toLowerCase s).
Proof.
  induction s as [|c s IH]; simpl; [exact I|].
  split; [apply lower_char_not_capital|exact IH].
Qed.

Lemma deriv_respects (c c' : ascii) (r : Regex.regex) :
  respects c c' r -> Regex.deriv c r = Regex.deriv c' r.
Proof.
  induction r as [| |p|r1 IH1 r2 IH2|r1 IH1 r2 IH2|r1 IH1]; simpl.
  - reflexivity.
  - reflexivity.
  - intros ->. reflexivity.
  - intros [H1 H2]. now rewrite IH1, IH2.
  - intros [H1 H2]. now rewrite IH1, IH2.
  - intros H1. now rewrite IH1.
Qed.

Lemma respects_deriv (c c' d : ascii) (r : Regex.regex) :
  respects c c' r -> respects c c' (Regex.deriv d r).
Proof.
  induction r as [| |p|r1 IH1 r2 IH2|r1 IH1 r2 IH2|r1 IH1]; simpl; try tauto.
  - intros _. destruct (p d); exact I.
  - intros [H1 H2]. destruct (Regex.nullable r1); simpl; tauto.
Qed.

Lemma test_toLowerCase (r : Regex.regex) (s : string) :
  (forall c, respects c (JsString.lower_char c) r) ->
  Regex.test r (JsString.toLowerCase s) = Regex.test r s.
Proof.
  revert r. induction s as [|a s IH]; intros r Hr; simpl; [reflexivity|].
  rewrite <- (deriv_respects a (JsString.lower_char a) r (Hr a)).
  apply IH. intros c. apply respects_deriv, Hr.
Qed.

(** The email pattern does not look at the case of letters. *)
Lemma emailRegex_toLowerCase (s : string) :
  Regex.test emailRegex (JsString.toLowerCase s) = Regex.test emailRegex s.
Proof.
  apply test_toLowerCase. intros c. unfold emailRegex, Regex.Plus.
  cbn [respects]. unfold not_space_at.
  rewrite lower_char_space, lower_char_eqb_at, lower_char_eqb_dot.
  repeat split. symmetry. apply lower_char_is_at.
Qed.

(** The pattern rejects the empty string. *)
Lemma emailRegex_nonempty (s : string) :
  Regex.test emailRegex s = true -> s <> "".
Proof. intros H ->. discriminate H. Qed.

(** ** Lists *)

Lemma slice_neg_last_n {A : Type} (n : nat) (l : list A) :
  (0 < n)%nat -> Js.slice (- Z.of_nat n) l = last_n n l.
Proof.
  intros Hn. unfold Js.slice, last_n.
  rewrite firstn_rev, rev_involutive.
  replace (- Z.of_nat n <? 0) with true by (symmetry; apply Z.ltb_lt; lia).
  f_equal. lia.
Qed.

(** ** Stepping through a handler *)

Arguments interpolate : simpl never.
Arguments validateEmail : simpl never.
Arguments deliver : simpl never.

Ltac run_handler :=
  unfold try_catch, bind, lift, ret, get, notify,
    push_user, push_appointment, push_contact, push_newsletter;
  simpl.

(** ** Token verification *)

(** C1, as stated, fails: with no header the middleware answers 401
    "Access token required", with a token that does not parse it answers 403
    "Invalid token"; status and body tell the two failures apart. *)
Lemma authenticateToken_not_uniform :
  verification_failure (sample_env 0 None) None
  /\ verification_failure (sample_env 0 None) (Some "Bearer not.a.jwt")
  /\ authenticateToken (sample_env 0 None) None
     = inl (error_response 401 "Access token required")
  /\ authenticateToken (sample_env 0 None) (Some "Bearer not.a.jwt")
     = inl (error_response 403 "Invalid token")
  /\ authenticateToken (sample_env 0 None) None
     <> authenticateToken (sample_env 0 None) (Some "Bearer not.a.jwt").
Proof.
  split; [constructor|].
  split; [apply rejected_token with (token := "not.a.jwt") (err := JwtMalformed);
          [reflexivity | discriminate | reflexivity]|].
  repeat split; discriminate.
Qed.

(** C1 (amended): token verification fails closed in two ways.  A request
    without an [Authorization] header is answered 401 "Access token
    required"; a request whose token is rejected by [jwt.verify] is answered
    403 "Invalid token", the same for a malformed token, a bad signature and
    an expired token.  In neither case does the protected handler run. *)
Theorem authenticateToken_fails_closed (e : env) (authHeader : option string) :
  verification_failure e authHeader ->
  authenticateToken e authHeader
  = inl (match authHeader with
         | None => error_response 401 "Access token required"
         | Some _ => error_response 403 "Invalid token"
         end).
Proof.
  intros [|h token err Htoken Hne Herr]; [reflexivity|].
  unfold authenticateToken. rewrite Htoken, Herr.
  destruct token; [contradiction|reflexivity].
Qed.

Lemma authenticateToken_fails_closed_witness :
  verification_failure (sample_env 0 None) (Some "Bearer signed.1.old")
  /\ authenticateToken (sample_env 0 None) (Some "Bearer signed.1.old")
     = inl (error_response 403 "Invalid token").
Proof.
  assert (H : verification_failure (sample_env 0 None) (Some "Bearer signed.1.old")).
  { apply rejected_token with (token := "signed.1.old") (err := JwtExpired);
      [reflexivity | discriminate | reflexivity]. }
  split; [exact H|].
  exact (authenticateToken_fails_closed _ _ H).
Defined.

(** ** The administrative summary *)

(** C8: once the token is accepted, the summary is the four element counts
    and the last 5 appointments and contacts in insertion order, and the
    store is left as it was. *)
Theorem admin_stats_summary (e : env) (authHeader : option string)
    (st : store) (user : jwt_payload) :
  authenticateToken e authHeader = inr user ->
  get_admin_stats e authHeader st
  = (json_response
       (StatsBody (List.length (users st)) (List.length (appointments st))
          (List.length (contacts st)) (List.length (newsletters st))
          (last_n 5 (appointments st)) (last_n 5 (contacts st))),
     st).
Proof.
  intros Hauth. unfold get_admin_stats, admin_stats. rewrite Hauth.
  change (-5) with (- Z.of_nat 5).
  rewrite !slice_neg_last_n by lia. reflexivity.
Qed.

Lemma admin_stats_summary_witness :
  authenticateToken (sample_env 0 None) (Some "Bearer signed.1.token")
  = inr (mkPayload 1 0 86400)
  /\ get_admin_stats (sample_env 0 None) (Some "Bearer signed.1.token")
       (createTestUser "$2a$10$hash" empty_store)
     = (json_response (StatsBody 1 0 0 0 [] []),
        createTestUser "$2a$10$hash" empty_store).
Proof.
  split; [reflexivity|].
  exact (admin_stats_summary (sample_env 0 None) (Some "Bearer signed.1.token")
           (createTestUser "$2a$10$hash" empty_store) (mkPayload 1 0 86400)
           eq_refl).
Defined.

(** ** Validation failures of a booking *)

(** C4: a booking with a missing required field, or with an email the
    pattern rejects, is answered 400 with an error body and leaves the store
    exactly as it was. *)
Theorem post_appointments_invalid (e : env) (b : gmap string value) (st : store) :
  booking_fields_present b = false
  \/ validateEmail (prop b "email") = Ok false ->
  exists msg, post_appointments e b st = (error_response 400 msg, st).
Proof.
  unfold booking_fields_present, post_appointments. intros H.
  destruct (Js.truthy (prop b "firstName")); [|run_handler; eauto].
  destruct (Js.truthy (prop b "lastName")); [|run_handler; eauto].
  destruct (Js.truthy (prop b "email")); [|run_handler; eauto].
  destruct (Js.truthy (prop b "phone")); [|run_handler; eauto].
  destruct (Js.truthy (prop b "service")); [|run_handler; eauto].
  destruct (Js.truthy (prop b "date")); [|run_handler; eauto].
  destruct (Js.truthy (prop b "time")); [|run_handler; eauto].
  destruct H as [H|H]; [discriminate H|].
  run_handler. rewrite H. simpl. eauto.
Qed.

Lemma post_appointments_invalid_witness :
  validateEmail (prop (sample_booking "Ann" "not-an-email") "email") = Ok false
  /\ exists msg,
      post_appointments (sample_env 1000 None)
        (sample_booking "Ann" "not-an-email")
        (createTestUser "$2a$10$hash" empty_store)
      = (error_response 400 msg, createTestUser "$2a$10$hash" empty_store).
Proof.
  assert (H : validateEmail (prop (sample_booking "Ann" "not-an-email") "email")
              = Ok false) by (vm_compute; reflexivity).
  split; [exact H|].
  exact (post_appointments_invalid _ _ _ (or_intror H)).
Defined.

(** An email that is not a string can pass the pattern through its string
    conversion; lowering it then throws, and the booking is answered 500
    with nothing stored. *)
Example post_appointments_array_email :
  post_appointments (sample_env 1000 None)
    (<["email" := VArr [VStr "ann@example.com"]]> (sample_booking "Ann" ""))
    empty_store
  = (error_response 500 "Failed to book appointment", empty_store).
Proof. vm_compute. reflexivity. Qed.

(** ** Conflicts *)

(** C9: a registration answered "User already exists" and a subscription
    answered "Email already subscribed" leave the store as it was. *)
Theorem conflict_leaves_store (e : env) (b : gmap string value) (st : store) :
  (fst (post_auth_register e b st) = error_response 400 "User already exists" ->
   snd (post_auth_register e b st) = st)
  /\ (fst (post_newsletter e b st) = error_response 400 "Email already subscribed" ->
      snd (post_newsletter e b st) = st).
Proof.
  split.
  - unfold post_auth_register. run_handler.
    repeat case_match; simplify_eq; simpl; try reflexivity; intros [=].
  - unfold post_newsletter. run_handler.
    repeat case_match; simplify_eq; simpl; try reflexivity; intros [=].
Qed.

Lemma conflict_leaves_store_witness :
  let e := sample_env 2000 None in
  let b := sample_credentials "A@Ex.com" "secret2" in
  let st := snd (post_auth_register (sample_env 1000 None)
                   (sample_credentials "a@ex.com" "secret1") empty_store) in
  let b' := json_object [("email", VStr "A@Example.com")] in
  let st' := snd (post_newsletter (sample_env 1000 None)
                    (json_object [("email", VStr "a@example.com")]) st) in
  (fst (post_auth_register e b st) = error_response 400 "User already exists"
   /\ snd (post_auth_register e b st) = st)
  /\ (fst (post_newsletter e b' st') = error_response 400 "Email already subscribed"
      /\ snd (post_newsletter e b' st') = st').
Proof.
  intros e b st b' st'.
  assert (H : fst (post_auth_register e b st)
              = error_response 400 "User already exists")
    by (vm_compute; reflexivity).
  assert (H' : fst (post_newsletter e b' st')
               = error_response 400 "Email already subscribed")
    by (vm_compute; reflexivity).
  split; (split; [assumption|]).
  - exact (proj1 (conflict_leaves_store e b st) H).
  - exact (proj2 (conflict_leaves_store e b' st') H').
Defined.

(** ** Accepted requests, step by step *)

Lemma post_appointments_store (e : env) (b : gmap string value) (st : store)
    (lowered : string) :
  booking_valid b lowered ->
  snd (post_appointments e b st)
  = mkStore (users st) (appointments st ++ [booked e b lowered])
      (contacts st) (newsletters st).
Proof.
  intros (Hpresent & Hvalid & Hlower).
  unfold booking_fields_present in Hpresent.
  repeat (apply andb_prop in Hpresent; destruct Hpresent as [Hpresent ?]).
  unfold post_appointments. run_handler.
  repeat match goal with H : Js.truthy _ = true |- _ => rewrite H; clear H end.
  simpl. rewrite Hvalid. simpl. rewrite Hlower. simpl.
  destruct (interpolate _); [|reflexivity].
  destruct (deliver e _); reflexivity.
Qed.

Lemma post_appointments_accepted (e : env) (b : gmap string value) (st : store)
    (lowered : string) (parts : list string) :
  booking_accepted b lowered parts ->
  fst (post_appointments e b st)
  = after_delivery
      (deliver e (mkMail (EMAIL_USER e) (prop b "email") parts))
      "Appointment booked successfully! Check your email for confirmation."
      "Failed to book appointment".
Proof.
  intros ((Hpresent & Hvalid & Hlower) & Hparts).
  unfold booking_fields_present in Hpresent.
  repeat (apply andb_prop in Hpresent; destruct Hpresent as [Hpresent ?]).
  unfold booking_holes in Hparts. simpl in Hparts.
  unfold post_appointments. run_handler.
  repeat match goal with H : Js.truthy _ = true |- _ => rewrite H; clear H end.
  simpl. rewrite Hvalid. simpl. rewrite Hlower. simpl.
  rewrite Hparts.
  destruct (deliver e _); reflexivity.
Qed.

Lemma post_contact_accepted (e : env) (b : gmap string value) (st : store)
    (name lowered message : string) :
  contact_accepted b name lowered message ->
  post_contact e b st
  = (after_delivery
       (deliver e (mkMail (EMAIL_USER e) (VStr (admin_address e))
                     [name; lowered; message]))
       "Message sent successfully! We'll get back to you soon."
       "Failed to send message",
     mkStore (users st) (appointments st)
       (contacts st ++ [mkContact (date_now e) name lowered message (new_date e)])
       (newsletters st)).
Proof.
  intros (Hpresent & Hvalid & Hname & Hlower & Hmessage).
  unfold contact_fields_present in Hpresent.
  repeat (apply andb_prop in Hpresent; destruct Hpresent as [Hpresent ?]).
  unfold post_contact. run_handler.
  repeat match goal with H : Js.truthy _ = true |- _ => rewrite H; clear H end.
  simpl. rewrite Hvalid. simpl. rewrite Hname. simpl. rewrite Hlower. simpl.
  rewrite Hmessage. simpl. unfold admin_address.
  destruct (deliver e _); reflexivity.
Qed.

(** ** Notification and response *)

(** C2, as stated, fails: with a transport whose [sendMail] rejects, a valid
    booking and a valid contact message are answered 500, while the same
    requests are answered 200 when [sendMail] resolves. *)
Lemma failed_notification_changes_response :
  let failing := sample_env 1000 (Some (fun _ => Throw)) in
  let working := sample_env 1000 (Some (fun _ => Ok tt)) in
  let booking := sample_booking "Ann" "ann@example.com" in
  let message := sample_message "Ann" "ann@example.com" in
  fst (post_appointments working booking empty_store)
  = json_response
      (MessageBody
         "Appointment booked successfully! Check your email for confirmation.")
  /\ fst (post_appointments failing booking empty_store)
     = error_response 500 "Failed to book appointment"
  /\ fst (post_contact working message empty_store)
     = json_response
         (MessageBody "Message sent successfully! We'll get back to you soon.")
  /\ fst (post_contact failing message empty_store)
     = error_response 500 "Failed to send message".
Proof. vm_compute. repeat split; reflexivity. Qed.

(** C2 (amended): for a valid booking or contact message the record is
    stored whatever the notification outcome, and the response follows the
    notification: it is the success message when no transport is configured
    or [sendMail] resolves, and 500 ("Failed to book appointment", "Failed
    to send message") when [sendMail] rejects. *)
Theorem response_follows_notification (e : env) (b : gmap string value)
    (st : store) :
  (forall lowered parts,
      booking_accepted b lowered parts ->
      let m := mkMail (EMAIL_USER e) (prop b "email") parts in
      appointments (snd (post_appointments e b st))
      = appointments st ++ [booked e b lowered]
      /\ fst (post_appointments e b st)
         = match transporter e with
           | None =>
               json_response
                 (MessageBody
                    "Appointment booked successfully! Check your email for confirmation.")
           | Some sendMail =>
               match sendMail m with
               | Ok _ =>
                   json_response
                     (MessageBody
                        "Appointment booked successfully! Check your email for confirmation.")
               | Throw => error_response 500 "Failed to book appointment"
               end
           end)
  /\ (forall name lowered message,
         contact_accepted b name lowered message ->
         let m := mkMail (EMAIL_USER e) (VStr (admin_address e))
                    [name; lowered; message] in
         contacts (snd (post_contact e b st))
         = contacts st
             ++ [mkContact (date_now e) name lowered message (new_date e)]
         /\ fst (post_contact e b st)
            = match transporter e with
              | None =>
                  json_response
                    (MessageBody
                       "Message sent successfully! We'll get back to you soon.")
              | Some sendMail =>
                  match sendMail m with
                  | Ok _ =>
                      json_response
                        (MessageBody
                           "Message sent successfully! We'll get back to you soon.")
                  | Throw => error_response 500 "Failed to send message"
                  end
              end).
Proof.
  split.
  - intros lowered parts Hacc m. split.
    + rewrite (post_appointments_store e b st lowered (proj1 Hacc)). reflexivity.
    + rewrite (post_appointments_accepted e b st lowered parts Hacc).
      unfold deliver. fold m. destruct (transporter e) as [sendMail|]; reflexivity.
  - intros name lowered message Hacc m.
    rewrite (post_contact_accepted e b st name lowered message Hacc).
    split; [reflexivity|]. simpl.
    unfold deliver. fold m. destruct (transporter e) as [sendMail|]; reflexivity.
Qed.

Lemma response_follows_notification_witness :
  let e := sample_env 1000 (Some (fun _ => Throw)) in
  let b := sample_booking "Ann" "Ann@Example.com" in
  let parts := ["Ann"; "Lee"; "massage"; "2025-01-01"; "10:00"; "555-0100"] in
  let c := sample_message " Ann" "Ann@Example.com" in
  (booking_accepted b "ann@example.com" parts
   /\ appointments (snd (post_appointments e b empty_store))
      = [booked e b "ann@example.com"]
   /\ fst (post_appointments e b empty_store)
      = error_response 500 "Failed to book appointment")
  /\ (contact_accepted c "Ann" "ann@example.com" "hello"
      /\ contacts (snd (post_contact e c empty_store))
         = [mkContact 1000 "Ann" "ann@example.com" "hello" 1000]
      /\ fst (post_contact e c empty_store)
         = error_response 500 "Failed to send message").
Proof.
  intros e b parts c.
  assert (H : booking_accepted b "ann@example.com" parts)
    by (repeat split; vm_compute; reflexivity).
  assert (H' : contact_accepted c "Ann" "ann@example.com" "hello")
    by (repeat split; vm_compute; reflexivity).
  split; (split; [assumption|]).
  - exact (proj1 (response_follows_notification e b empty_store)
             "ann@example.com" parts H).
  - exact (proj2 (response_follows_notification e c empty_store)
             "Ann" "ann@example.com" "hello" H').
Defined.

(** ** The stored message of a booking *)

(** C10: a valid booking stores a record whose message is never absent;
    when the request has no message, or a falsy one, the stored message is
    the empty string. *)
Theorem stored_message_never_absent (e : env) (b : gmap string value)
    (st : store) (lowered : string) :
  booking_valid b lowered ->
  exists a,
    appointments (snd (post_appointments e b st)) = appointments st ++ [a]
    /\ appt_message a <> VUndefined
    /\ (Js.truthy (prop b "message") = false -> appt_message a = VStr "")
    /\ (Js.truthy (prop b "message") = true -> appt_message a = prop b "message").
Proof.
  intros Hvalid. exists (booked e b lowered).
  rewrite (post_appointments_store e b st lowered Hvalid). simpl.
  split; [reflexivity|].
  destruct (Js.truthy (prop b "message")) eqn:Hm.
  - repeat split; try discriminate.
    intros Hu. rewrite Hu in Hm. discriminate Hm.
  - repeat split; discriminate.
Qed.

Lemma stored_message_never_absent_witness :
  let e := sample_env 1000 None in
  let b := sample_booking "Ann" "Ann@Example.com" in
  booking_valid b "ann@example.com"
  /\ exists a,
      appointments (snd (post_appointments e b empty_store)) = [] ++ [a]
      /\ appt_message a <> VUndefined
      /\ (Js.truthy (prop b "message") = false -> appt_message a = VStr "")
      /\ (Js.truthy (prop b "message") = true -> appt_message a = prop b "message").
Proof.
  intros e b.
  assert (H : booking_valid b "ann@example.com")
    by (repeat split; vm_compute; reflexivity).
  split; [exact H|].
  exact (stored_message_never_absent e b empty_store "ann@example.com" H).
Defined.

(** ** Identifiers *)

(** What a request does to [appointments] and to [contacts]: nothing, or one
    record at the end, pushed by a booking (a contact message) and stamped
    with the readings of that request. *)
Lemma handle_appointments (e : env) (r : request) (st : store) :
  appointments (snd (handle e r st)) = appointments st
  \/ exists a,
      appointments (snd (handle e r st)) = appointments st ++ [a]
      /\ (exists b, r = BookAppointment b)
      /\ stamped appt_id appt_createdAt (e, r, a).
Proof.
  unfold stamped.
  destruct r as [b|b|b|b|b|h]; simpl;
    unfold post_auth_login, post_auth_register, post_appointments,
      post_contact, post_newsletter, get_admin_stats;
    run_handler; repeat case_match; simplify_eq; simpl; eauto 10.
Qed.

Lemma handle_contacts (e : env) (r : request) (st : store) :
  contacts (snd (handle e r st)) = contacts st
  \/ exists c,
      contacts (snd (handle e r st)) = contacts st ++ [c]
      /\ (exists b, r = Contact b)
      /\ stamped contact_id contact_createdAt (e, r, c).
Proof.
  unfold stamped.
  destruct r as [b|b|b|b|b|h]; simpl;
    unfold post_auth_login, post_auth_register, post_appointments,
      post_contact, post_newsletter, get_admin_stats;
    run_handler; repeat case_match; simplify_eq; simpl; eauto 10.
Qed.

Lemma StronglySorted_lt_NoDup (l : list Z) :
  StronglySorted Z.lt l -> List.NoDup l.
Proof.
  induction 1 as [|a l Hsorted IH Ha]; constructor; [|exact IH].
  intros Hin. rewrite List.Forall_forall in Ha. specialize (Ha a Hin). lia.
Qed.

Lemma readings_ids {A : Type} (id created : A -> Z) (log : list (env * request * A)) :
  Forall (stamped id created) log -> map id (map snd log) = readings log.
Proof.
  induction 1 as [|x log [Hid _] _ IH]; simpl; [reflexivity|].
  rewrite Hid, IH. reflexivity.
Qed.

Section Appends.

Context {A : Type} (field : store -> list A) (P : env * request * A -> Prop).

Hypothesis field_step : forall e r st,
  field (snd (handle e r st)) = field st
  \/ exists a, field (snd (handle e r st)) = field st ++ [a] /\ P (e, r, a).

Lemma appended_step (e : env) (r : request) (st : store) :
  field (snd (handle e r st))
  = field st ++ appended field st (snd (handle e r st))
  /\ Forall (fun a => P (e, r, a)) (appended field st (snd (handle e r st))).
Proof.
  unfold appended. destruct (field_step e r st) as [->|(a & -> & Ha)].
  - rewrite drop_all, app_nil_r. split; [reflexivity|constructor].
  - rewrite drop_app_length. split; [reflexivity|]. constructor; [exact Ha|constructor].
Qed.

Lemma run_appends (events : list (env * request)) :
  forall st, field (run events st) = field st ++ map snd (appends field events st).
Proof.
  induction events as [|[e r] rest IH]; intros st; simpl.
  - rewrite app_nil_r. reflexivity.
  - rewrite IH, map_app, map_map. simpl. rewrite map_id, app_assoc.
    f_equal. apply appended_step.
Qed.

Lemma appends_made (events : list (env * request)) :
  forall st,
    Forall (fun x => In (fst x) events /\ P x) (appends field events st).
Proof.
  induction events as [|[e r] rest IH]; intros st; simpl; [constructor|].
  apply Forall_app. split.
  - apply List.Forall_map. simpl.
    eapply List.Forall_impl; [|apply appended_step]. simpl. auto.
  - eapply List.Forall_impl; [|apply IH]. simpl. intros x [Hin Hx]. auto.
Qed.

End Appends.

(** C3, as stated, fails: two bookings handled at the same clock reading
    are two different records with the same id. *)
Lemma ids_can_collide :
  let st :=
    run [(sample_env 1000 None, BookAppointment (sample_booking "Ann" "ann@example.com"));
         (sample_env 1000 None, BookAppointment (sample_booking "Bob" "bob@example.com"))]
      empty_store in
  map appt_firstName (appointments st) = [VStr "Ann"; VStr "Bob"]
  /\ map appt_id (appointments st) = [1000; 1000]
  /\ ~ List.NoDup (map appt_id (appointments st)).
Proof.
  vm_compute. repeat split.
  intros H. inversion H as [|? ? Hnotin _]; subst.
  apply Hnotin. left. reflexivity.
Qed.

(** C3 (amended): every record appended to the appointment store or to the
    contact store is pushed by a booking (a contact message) of the run and
    carries the [Date.now()] of that request as its id and its [new Date()]
    as its creation time.  The ids of a store are therefore, in insertion
    order, the clock readings of the requests that appended to it: when the
    readings of these successive appends strictly increase, so do the ids,
    and no two records of the store share an id; two appends at the same
    reading share their id.  (Newsletter subscriptions carry an email and a
    subscription timestamp, and no id.) *)
Theorem ids_follow_clock (events : list (env * request)) :
  let st := run events empty_store in
  let bookings := appends appointments events empty_store in
  let messages := appends contacts events empty_store in
  (appointments st = map snd bookings
   /\ Forall (fun x => In (fst x) events
                       /\ (exists b, snd (fst x) = BookAppointment b)
                       /\ stamped appt_id appt_createdAt x) bookings
   /\ map appt_id (appointments st) = readings bookings
   /\ (StronglySorted Z.lt (readings bookings) ->
       StronglySorted Z.lt (map appt_id (appointments st))
       /\ List.NoDup (map appt_id (appointments st))))
  /\ (contacts st = map snd messages
      /\ Forall (fun x => In (fst x) events
                          /\ (exists b, snd (fst x) = Contact b)
                          /\ stamped contact_id contact_createdAt x) messages
      /\ map contact_id (contacts st) = readings messages
      /\ (StronglySorted Z.lt (readings messages) ->
          StronglySorted Z.lt (map contact_id (contacts st))
          /\ List.NoDup (map contact_id (contacts st)))).
Proof.
  intros st bookings messages. split.
  - pose proof (run_appends appointments
                  (fun x => (exists b, snd (fst x) = BookAppointment b)
                            /\ stamped appt_id appt_createdAt x)
                  handle_appointments events empty_store) as Hrun.
    pose proof (appends_made appointments
                  (fun x => (exists b, snd (fst x) = BookAppointment b)
                            /\ stamped appt_id appt_createdAt x)
                  handle_appointments events empty_store) as Hmade.
    simpl in Hrun, Hmade. fold st bookings in Hrun, Hmade.
    assert (Hids : map appt_id (appointments st) = readings bookings).
    { rewrite Hrun. apply (readings_ids appt_id appt_createdAt).
      eapply List.Forall_impl; [|exact Hmade]. simpl. tauto. }
    split; [exact Hrun|]. split; [exact Hmade|]. split; [exact Hids|].
    rewrite Hids. intros Hsorted.
    split; [exact Hsorted|apply StronglySorted_lt_NoDup, Hsorted].
  - pose proof (run_appends contacts
                  (fun x => (exists b, snd (fst x) = Contact b)
                            /\ stamped contact_id contact_createdAt x)
                  handle_contacts events empty_store) as Hrun.
    pose proof (appends_made contacts
                  (fun x => (exists b, snd (fst x) = Contact b)
                            /\ stamped contact_id contact_createdAt x)
                  handle_contacts events empty_store) as Hmade.
    simpl in Hrun, Hmade. fold st messages in Hrun, Hmade.
    assert (Hids : map contact_id (contacts st) = readings messages).
    { rewrite Hrun. apply (readings_ids contact_id contact_createdAt).
      eapply List.Forall_impl; [|exact Hmade]. simpl. tauto. }
    split; [exact Hrun|]. split; [exact Hmade|]. split; [exact Hids|].
    rewrite Hids. intros Hsorted.
    split; [exact Hsorted|apply StronglySorted_lt_NoDup, Hsorted].
Qed.

Lemma ids_follow_clock_witness :
  let events :=
    [(sample_env 1000 None, BookAppointment (sample_booking "Ann" "ann@example.com"));
     (sample_env 1000 None, Login (sample_credentials "ann@example.com" "secret1"));
     (sample_env 1000 None, Contact (sample_message "Ann" "ann@example.com"));
     (sample_env 1001 None, BookAppointment (sample_booking "Bob" "bob@example.com"))] in
  readings (appends appointments events empty_store) = [1000; 1001]
  /\ StronglySorted Z.lt (readings (appends appointments events empty_store))
  /\ map appt_id (appointments (run events empty_store)) = [1000; 1001]
  /\ List.NoDup (map appt_id (appointments (run events empty_store))).
Proof.
  intros events.
  assert (Hr : readings (appends appointments events empty_store) = [1000; 1001])
    by (vm_compute; reflexivity).
  assert (H : StronglySorted Z.lt (readings (appends appointments events empty_store))).
  { rewrite Hr. repeat constructor. }
  destruct (ids_follow_clock events) as [(_ & _ & Hids & Hsorted) _].
  split; [exact Hr|]. split; [exact H|].
  split; [rewrite <- Hr; exact Hids|exact (proj2 (Hsorted H))].
Defined.

(** ** Registration and login *)

Lemma truthy_nonempty (s : string) : s <> "" -> Js.truthy (VStr s) = true.
Proof. intros H. destruct s; [contradiction|reflexivity]. Qed.

Lemma validateEmail_string (s : string) :
  validateEmail (VStr s) = Ok (Regex.test emailRegex s).
Proof. reflexivity. Qed.

Lemma validatePassword_string (e : env) (s : string) :
  (6 <= String.length s)%nat -> validatePassword e (VStr s) = true.
Proof.
  intros H. unfold validatePassword, ge_6. simpl.
  destruct s; [simpl in H; lia|]. simpl. apply Z.leb_le. simpl in H. lia.
Qed.

(** The lookup of the login handler, once the email is known to be a
    string. *)
Lemma find_user_by_email (email : string) (l : list user) :
  Js.find
    (fun u => Ok (String.eqb (user_email u) (JsString.toLowerCase email))) l
  = Ok (user_with_email (JsString.toLowerCase email) l).
Proof.
  induction l as [|u l IH]; simpl; [reflexivity|].
  destruct (String.eqb (user_email u) (JsString.toLowerCase email)); [reflexivity|].
  exact IH.
Qed.

Lemma user_with_email_snoc (email : string) (l : list user) (u : user) :
  user_with_email email l = None ->
  user_email u = email ->
  user_with_email email (l ++ [u]) = Some u.
Proof.
  unfold user_with_email. intros Hnone Hu.
  induction l as [|v l IH]; simpl in *.
  - rewrite Hu, String.eqb_refl. reflexivity.
  - destruct (String.eqb (user_email v) email); [discriminate Hnone|].
    apply IH, Hnone.
Qed.

(** A registration with a well-formed email and a password of six
    characters or more: the outcome is decided by the lookup and the hash. *)
Lemma post_auth_register_strings (e : env) (b : gmap string value) (st : store)
    (email password : string) :
  prop b "email" = VStr email ->
  prop b "password" = VStr password ->
  Regex.test emailRegex email = true ->
  (6 <= String.length password)%nat ->
  post_auth_register e b st
  = match user_with_email (JsString.toLowerCase email) (users st) with
    | Some _ => (error_response 400 "User already exists", st)
    | None =>
        match bcrypt_hash e (VStr password) with
        | Ok hashedPassword =>
            (json_response (MessageBody "User registered successfully"),
             mkStore
               (users st
                  ++ [mkUser (date_now e) (JsString.toLowerCase email)
                        hashedPassword (Some (new_date e))])
               (appointments st) (contacts st) (newsletters st))
        | Throw => (error_response 500 "Internal server error", st)
        end
    end.
Proof.
  intros Hemail Hpassword Hvalid Hlen.
  unfold post_auth_register. rewrite Hemail, Hpassword.
  rewrite (truthy_nonempty email (emailRegex_nonempty email Hvalid)).
  rewrite truthy_nonempty by (intros ->; simpl in Hlen; lia).
  rewrite validateEmail_string, Hvalid, (validatePassword_string e password Hlen).
  run_handler.
  destruct (user_with_email _ _); [reflexivity|].
  destruct (bcrypt_hash e _); reflexivity.
Qed.

(** C5: from a state where the normalized email is not registered, and with
    a hash that resolves, registering a well-formed email with a valid
    password succeeds, and registering next an email with the same lowercase
    form (the same email, or one differing in letter case only) is answered
    400 "User already exists". *)
Theorem register_twice (e1 e2 : env) (b1 b2 : gmap string value) (st : store)
    (email1 email2 password1 password2 hashed : string) :
  prop b1 "email" = VStr email1 ->
  prop b1 "password" = VStr password1 ->
  prop b2 "email" = VStr email2 ->
  prop b2 "password" = VStr password2 ->
  Regex.test emailRegex email1 = true ->
  (6 <= String.length password1)%nat ->
  (6 <= String.length password2)%nat ->
  JsString.toLowerCase email2 = JsString.toLowerCase email1 ->
  user_with_email (JsString.toLowerCase email1) (users st) = None ->
  bcrypt_hash e1 (VStr password1) = Ok hashed ->
  fst (post_auth_register e1 b1 st)
  = json_response (MessageBody "User registered successfully")
  /\ fst (post_auth_register e2 b2 (snd (post_auth_register e1 b1 st)))
     = error_response 400 "User already exists".
Proof.
  intros Hb1e Hb1p Hb2e Hb2p Hvalid Hlen1 Hlen2 Hsame Hfresh Hhash.
  rewrite (post_auth_register_strings e1 b1 st email1 password1) by assumption.
  rewrite Hfresh, Hhash. split; [reflexivity|]. simpl.
  assert (Hvalid2 : Regex.test emailRegex email2 = true).
  { rewrite <- emailRegex_toLowerCase, Hsame, emailRegex_toLowerCase. exact Hvalid. }
  rewrite (post_auth_register_strings e2 b2 _ email2 password2) by assumption.
  simpl. rewrite Hsame.
  erewrite user_with_email_snoc; [reflexivity|exact Hfresh|reflexivity].
Qed.

Lemma register_twice_witness :
  let e1 := sample_env 1000 None in
  let e2 := sample_env 2000 None in
  let b1 := sample_credentials "Ann@Example.com" "secret1" in
  let b2 := sample_credentials "ANN@example.COM" "secret1" in
  let st := createTestUser "$2a$10$hash" empty_store in
  fst (post_auth_register e1 b1 st)
  = json_response (MessageBody "User registered successfully")
  /\ fst (post_auth_register e2 b2 (snd (post_auth_register e1 b1 st)))
     = error_response 400 "User already exists".
Proof.
  intros e1 e2 b1 b2 st.
  apply (register_twice e1 e2 b1 b2 st "Ann@Example.com" "ANN@example.COM"
           "secret1" "secret1" "$2a$10$secret1");
    try (vm_compute; reflexivity); simpl; lia.
Defined.

(** Where [bcrypt.compare] answers, the two failures of a login get the
    same response: an email that is not registered and a password that
    [bcrypt.compare] answers [false] for are both answered 401 "Invalid
    credentials". *)
Lemma login_failures_indistinguishable (e1 e2 : env)
    (b1 b2 : gmap string value) (st1 st2 : store) :
  authentication_failure e1 b1 st1 ->
  authentication_failure e2 b2 st2 ->
  fst (post_auth_login e1 b1 st1) = error_response 401 "Invalid credentials"
  /\ fst (post_auth_login e1 b1 st1) = fst (post_auth_login e2 b2 st2).
Proof.
  assert (Hone : forall e b st, authentication_failure e b st ->
            fst (post_auth_login e b st)
            = error_response 401 "Invalid credentials").
  { intros e b st [email (Hemail & Hvalid & Hpw) Hnone
                  |email u (Hemail & Hvalid & Hpw) Hsome Hcmp];
      unfold post_auth_login; rewrite Hemail, Hpw;
      rewrite (truthy_nonempty email (emailRegex_nonempty email Hvalid));
      rewrite validateEmail_string, Hvalid; run_handler;
      rewrite find_user_by_email.
    - rewrite Hnone. reflexivity.
    - rewrite Hsome. simpl. rewrite Hcmp. reflexivity. }
  intros H1 H2. rewrite (Hone _ _ _ H1), (Hone _ _ _ H2). split; reflexivity.
Qed.

Lemma login_failures_indistinguishable_witness :
  let e := sample_env 1000 None in
  let st := createTestUser "$2a$10$password123" empty_store in
  let unknown := sample_credentials "nobody@example.com" "password123" in
  let wrong := sample_credentials "Test@WellnessHub.com" "not-the-password" in
  authentication_failure e unknown st
  /\ authentication_failure e wrong st
  /\ fst (post_auth_login e unknown st) = error_response 401 "Invalid credentials"
  /\ fst (post_auth_login e unknown st) = fst (post_auth_login e wrong st).
Proof.
  intros e st unknown wrong.
  assert (H1 : authentication_failure e unknown st).
  { apply unknown_email with (email := "nobody@example.com");
      [repeat split|]; vm_compute; reflexivity. }
  assert (H2 : authentication_failure e wrong st).
  { apply wrong_password with (email := "Test@WellnessHub.com")
      (u := mkUser 1 "test@wellnesshub.com" "$2a$10$password123" None);
      [repeat split| |]; vm_compute; reflexivity. }
  split; [exact H1|]. split; [exact H2|].
  exact (login_failures_indistinguishable e e unknown wrong st st H1 H2).
Defined.

(** C6 (defect): the two causes of a failed login are told apart when
    [bcrypt.compare] throws, as bcryptjs does for a password that is not a
    string ("Illegal arguments").  With the same password, a registered
    email is then answered 500 "Internal server error" and an email that is
    not registered 401 "Invalid credentials": the status reveals whether
    the email is registered. *)
Theorem login_failure_causes_distinguished (e : env) (st : store)
    (b1 b2 : gmap string value) (registered unregistered : string) (u : user) :
  login_validated b1 registered ->
  login_validated b2 unregistered ->
  prop b1 "password" = prop b2 "password" ->
  user_with_email (JsString.toLowerCase registered) (users st) = Some u ->
  user_with_email (JsString.toLowerCase unregistered) (users st) = None ->
  bcrypt_compare e (prop b1 "password") (user_password u) = Throw ->
  fst (post_auth_login e b1 st) = error_response 500 "Internal server error"
  /\ fst (post_auth_login e b2 st) = error_response 401 "Invalid credentials"
  /\ fst (post_auth_login e b1 st) <> fst (post_auth_login e b2 st).
Proof.
  intros (Hemail1 & Hvalid1 & Hpw1) (Hemail2 & Hvalid2 & Hpw2) _ Hsome Hnone Hcmp.
  assert (H1 : fst (post_auth_login e b1 st)
               = error_response 500 "Internal server error").
  { unfold post_auth_login. rewrite Hemail1, Hpw1.
    rewrite (truthy_nonempty registered (emailRegex_nonempty registered Hvalid1)).
    rewrite validateEmail_string, Hvalid1. run_handler.
    rewrite find_user_by_email, Hsome. simpl. rewrite Hcmp. reflexivity. }
  assert (H2 : fst (post_auth_login e b2 st)
               = error_response 401 "Invalid credentials").
  { unfold post_auth_login. rewrite Hemail2, Hpw2.
    rewrite (truthy_nonempty unregistered (emailRegex_nonempty unregistered Hvalid2)).
    rewrite validateEmail_string, Hvalid2. run_handler.
    rewrite find_user_by_email, Hnone. reflexivity. }
  rewrite H1, H2. repeat split. discriminate.
Qed.

Lemma login_failure_causes_distinguished_witness :
  let e := sample_env 1000 None in
  let st := createTestUser "$2a$10$password123" empty_store in
  let b1 := json_object [("email", VStr "test@wellnesshub.com");
                         ("password", VNum 123456)] in
  let b2 := json_object [("email", VStr "nobody@example.com");
                         ("password", VNum 123456)] in
  fst (post_auth_login e b1 st) = error_response 500 "Internal server error"
  /\ fst (post_auth_login e b2 st) = error_response 401 "Invalid credentials"
  /\ fst (post_auth_login e b1 st) <> fst (post_auth_login e b2 st).
Proof.
  intros e st b1 b2.
  apply (login_failure_causes_distinguished e st b1 b2
           "test@wellnesshub.com" "nobody@example.com"
           (mkUser 1 "test@wellnesshub.com" "$2a$10$password123" None));
    try (repeat split); vm_compute; reflexivity.
Defined.

(** ** Stored emails are lowercase *)

Lemma Js_toLowerCase_lowercase (v : value) (s : string) :
  Js.toLowerCase v = Ok s -> lowercase s.
Proof.
  destruct v; simpl; intros [=]; subst. apply toLowerCase_lowercase.
Qed.

Lemma Forall_snoc {A : Type} (P : A -> Prop) (l : list A) (x : A) :
  Forall P l -> P x -> Forall P (l ++ [x]).
Proof.
  intros Hl Hx. apply Forall_app. split; [exact Hl|]. constructor; [exact Hx|constructor].
Qed.

Lemma test_address_lowercase : lowercase "test@wellnesshub.com".
Proof. unfold capital. vm_compute. intuition congruence. Qed.

Lemma createTestUser_emails_lowercase (hashedPassword : string) (st : store) :
  emails_lowercase st -> emails_lowercase (createTestUser hashedPassword st).
Proof.
  intros (Hu & Ha & Hc & Hn). unfold createTestUser. simpl.
  repeat split; simpl; try assumption.
  apply Forall_snoc; [exact Hu|apply test_address_lowercase].
Qed.

Lemma handle_emails_lowercase (e : env) (r : request) (st : store) :
  emails_lowercase st -> emails_lowercase (snd (handle e r st)).
Proof.
  intros (Hu & Ha & Hc & Hn).
  destruct r as [b|b|b|b|b|h]; simpl;
    unfold post_auth_login, post_auth_register, post_appointments,
      post_contact, post_newsletter, get_admin_stats;
    run_handler; repeat case_match; simplify_eq; simpl;
    repeat split; simpl; try assumption;
    apply Forall_snoc; try assumption; simpl;
    eapply Js_toLowerCase_lowercase; eassumption.
Qed.

(** In every reachable state of the server no stored email field (of a
    user, an appointment, a contact message, a newsletter subscription)
    holds a capital letter. *)
Lemma reachable_emails_lowercase (st : store) :
  reachable st -> emails_lowercase st.
Proof.
  unfold reachable. intros Hreach.
  apply (rtc_ind_r (R := step) (fun s => emails_lowercase s) empty_store);
    [| |exact Hreach].
  - repeat split; constructor.
  - intros st1 st2 _ Hstep IH.
    destruct Hstep as [hashedPassword st1|e r st1].
    + apply createTestUser_emails_lowercase, IH.
    + apply handle_emails_lowercase, IH.
Qed.

(** * Further properties *)

(** ** The matcher and the language *)

Lemma lang_cat_inv (r1 r2 : Regex.regex) (s : string) :
  lang (Regex.Cat r1 r2) s
  <-> exists s1 s2, s = s1 +:+ s2 /\ lang r1 s1 /\ lang r2 s2.
Proof.
  split.
  - intros H. inversion H; subst. eauto.
  - intros (s1 & s2 & -> & H1 & H2). constructor; assumption.
Qed.

Lemma lang_alt_inv (r1 r2 : Regex.regex) (s : string) :
  lang (Regex.Alt r1 r2) s <-> lang r1 s \/ lang r2 s.
Proof.
  split.
  - intros H. inversion H; subst; tauto.
  - intros [H|H]; [apply lang_alt_l|apply lang_alt_r]; exact H.
Qed.

Lemma lang_class_inv (p : ascii -> bool) (s : string) :
  lang (Regex.Class p) s <-> exists c, s = String c "" /\ p c = true.
Proof.
  split.
  - intros H. inversion H; subst. eauto.
  - intros (c & -> & Hp). constructor. exact Hp.
Qed.

Lemma append_empty (s1 s2 : string) : s1 +:+ s2 = "" -> s1 = "" /\ s2 = "".
Proof. destruct s1; [simpl; tauto|discriminate]. Qed.

Lemma nullable_lang (r : Regex.regex) :
  Regex.nullable r = true <-> lang r "".
Proof.
  induction r as [| |p|r1 IH1 r2 IH2|r1 IH1 r2 IH2|r1 IH1]; simpl.
  - split; [discriminate|]. intros H. inversion H.
  - split; [constructor|reflexivity].
  - split; [discriminate|]. intros H. inversion H.
  - rewrite andb_true_iff, IH1, IH2, lang_cat_inv. split.
    + intros [H1 H2]. exists "", "". auto.
    + intros (s1 & s2 & Heq & H1 & H2). symmetry in Heq.
      apply append_empty in Heq as [-> ->]. tauto.
  - rewrite orb_true_iff, IH1, IH2, lang_alt_inv. tauto.
  - split; [constructor|reflexivity].
Qed.

(** A non-empty word of a starred expression starts with a non-empty word
    of the expression. *)
Lemma lang_star_uncons (r : Regex.regex) (c : ascii) (s : string) :
  lang (Regex.Star r) (String c s) ->
  exists s1 s2, s = s1 +:+ s2 /\ lang r (String c s1) /\ lang (Regex.Star r) s2.
Proof.
  intros H. remember (Regex.Star r) as r' eqn:Hr.
  remember (String c s) as w eqn:Hw. revert c s Hw.
  induction H as [| | | | | |r0 s1 s2 H1 _ H2 IH2]; try discriminate.
  intros c s Hw. injection Hr as ->.
  destruct s1 as [|c1 s1]; simpl in Hw.
  - apply (IH2 eq_refl c s Hw).
  - injection Hw as -> <-. exists s1, s2. auto.
Qed.

Lemma deriv_lang (c : ascii) (r : Regex.regex) :
  forall s, lang (Regex.deriv c r) s <-> lang r (String c s).
Proof.
  induction r as [| |p|r1 IH1 r2 IH2|r1 IH1 r2 IH2|r1 IH1]; intros s; simpl.
  - split; intros H; inversion H.
  - split; intros H; inversion H.
  - rewrite lang_class_inv. destruct (p c) eqn:Hp; split.
    + intros H. inversion H; subst. eauto.
    + intros (c' & [= <- ->] & _). constructor.
    + intros H. inversion H.
    + intros (c' & [= <- ->] & Hp'). congruence.
  - assert (Hcat : lang (Regex.Cat (Regex.deriv c r1) r2) s
                   <-> exists s1 s2, s = s1 +:+ s2 /\ lang r1 (String c s1) /\ lang r2 s2).
    { rewrite lang_cat_inv. split; intros (s1 & s2 & Heq & H1 & H2);
        exists s1, s2; (split; [exact Heq|split; [apply IH1, H1|exact H2]]). }
    assert (Hsplit : lang (Regex.Cat r1 r2) (String c s)
                     <-> (exists s1 s2, s = s1 +:+ s2 /\ lang r1 (String c s1) /\ lang r2 s2)
                         \/ (lang r1 "" /\ lang r2 (String c s))).
    { rewrite lang_cat_inv. split.
      - intros (s1 & s2 & Heq & H1 & H2).
        destruct s1 as [|c1 s1].
        + right. change (String c s = s2) in Heq. subst. auto.
        + change (String c s = String c1 (s1 +:+ s2)) in Heq.
          injection Heq as <- ->. left. eauto.
      - intros [(s1 & s2 & -> & H1 & H2)|[H1 H2]].
        + exists (String c s1), s2. auto.
        + exists "", (String c s). auto. }
    rewrite Hsplit. destruct (Regex.nullable r1) eqn:Hn.
    + apply nullable_lang in Hn. rewrite lang_alt_inv, Hcat, IH2. tauto.
    + rewrite Hcat. split; [tauto|]. intros [H|[H _]]; [exact H|].
      apply nullable_lang in H. congruence.
  - rewrite !lang_alt_inv, IH1, IH2. tauto.
  - rewrite lang_cat_inv. split.
    + intros (s1 & s2 & -> & H1 & H2).
      apply IH1 in H1. exact (lang_star_cons _ (String c s1) s2 H1 H2).
    + intros H. apply lang_star_uncons in H as (s1 & s2 & -> & H1 & H2).
      exists s1, s2. split; [reflexivity|]. split; [apply IH1, H1|exact H2].
Qed.

Lemma test_lang (r : Regex.regex) (s : string) :
  Regex.test r s = true <-> lang r s.
Proof.
  revert r. induction s as [|c s IH]; intros r; simpl.
  - apply nullable_lang.
  - rewrite IH. apply deriv_lang.
Qed.

Lemma lang_star_class (p : ascii -> bool) (s : string) :
  lang (Regex.Star (Regex.Class p)) s <-> string_forall p s = true.
Proof.
  split.
  - revert p. induction s as [|c s IH]; intros p H; simpl; [reflexivity|].
    apply lang_star_uncons in H as (s1 & s2 & -> & H1 & H2).
    apply lang_class_inv in H1 as (c' & [= -> ->] & Hp).
    rewrite Hp. simpl. apply IH. exact H2.
  - induction s as [|c s IH]; simpl; intros H; [constructor|].
    apply andb_true_iff in H as [Hp Hs].
    exact (lang_star_cons _ (String c "") s (lang_class p c Hp) (IH Hs)).
Qed.

Lemma lang_plus_class (p : ascii -> bool) (s : string) :
  lang (Regex.Plus (Regex.Class p)) s
  <-> s <> "" /\ string_forall p s = true.
Proof.
  unfold Regex.Plus. rewrite lang_cat_inv. split.
  - intros (s1 & s2 & -> & H1 & H2).
    apply lang_class_inv in H1 as (c & -> & Hp).
    apply lang_star_class in H2. change (String c "" +:+ s2) with (String c s2).
    simpl. rewrite Hp, H2. split; [discriminate|reflexivity].
  - intros [Hne Hall]. destruct s as [|c s]; [contradiction|].
    simpl in Hall. apply andb_true_iff in Hall as [Hp Hs].
    exists (String c ""), s. split; [reflexivity|].
    split; [constructor; exact Hp|apply lang_star_class, Hs].
Qed.

(** X1: [validateEmail] accepts a string exactly when it is
    [local@domain.tld] with three non-empty parts free of white space and
    at signs (so: one at sign in all, and a dot inside what follows it). *)
Theorem validateEmail_shape (s : string) :
  validateEmail (VStr s) = Ok true
  <-> exists l d t,
      s = l +:+ "@" +:+ d +:+ "." +:+ t
      /\ address_part l /\ address_part d /\ address_part t.
Proof.
  rewrite validateEmail_string.
  assert (Hok : Ok (Regex.test emailRegex s) = Ok true
                <-> Regex.test emailRegex s = true)
    by (split; [intros [= ->]; reflexivity|intros ->; reflexivity]).
  rewrite Hok, test_lang. unfold emailRegex, address_part. split.
  - rewrite lang_cat_inv. intros (l & s1 & -> & Hl & H1).
    apply lang_cat_inv in H1 as (a & s2 & -> & Ha & H2).
    apply lang_class_inv in Ha as (c & -> & Hc). apply Ascii.eqb_eq in Hc as <-.
    apply lang_cat_inv in H2 as (d & s3 & -> & Hd & H3).
    apply lang_cat_inv in H3 as (a & t & -> & Ha & Ht).
    apply lang_class_inv in Ha as (c & -> & Hc). apply Ascii.eqb_eq in Hc as <-.
    apply lang_plus_class in Hl, Hd, Ht. exists l, d, t. auto.
  - intros (l & d & t & -> & Hl & Hd & Ht).
    apply lang_plus_class in Hl, Hd, Ht.
    constructor; [exact Hl|].
    apply (lang_cat _ _ "@"); [constructor; reflexivity|].
    constructor; [exact Hd|].
    apply (lang_cat _ _ "."); [constructor; reflexivity|exact Ht].
Qed.

Lemma validateEmail_shape_witness :
  validateEmail (VStr "ann.lee@mail.example.com") = Ok true.
Proof.
  apply (validateEmail_shape "ann.lee@mail.example.com").
  exists "ann.lee", "mail.example", "com".
  repeat split; try discriminate; reflexivity.
Defined.

(** X2: the pattern ignores letter case, so an accepted address is still
    accepted once lowered, and a rejected one still rejected. *)
Theorem validateEmail_ignores_case (s : string) :
  validateEmail (VStr (JsString.toLowerCase s)) = validateEmail (VStr s).
Proof.
  rewrite !validateEmail_string, emailRegex_toLowerCase. reflexivity.
Qed.

(** ** What the routes leave alone *)

Ltac unfold_handlers :=
  unfold post_auth_login, post_auth_register, post_appointments,
    post_contact, post_newsletter, get_admin_stats.

(** X3: login and the administrative summary are read-only: whatever the
    request and whatever the collaborators do, the store after the request
    is the store before it. *)
Theorem read_only_routes (e : env) (st : store) :
  (forall b, snd (post_auth_login e b st) = st)
  /\ (forall authHeader, snd (get_admin_stats e authHeader st) = st).
Proof.
  split.
  - intros b. unfold post_auth_login. run_handler.
    repeat case_match; simplify_eq; reflexivity.
  - intros h. unfold get_admin_stats. case_match; reflexivity.
Qed.

(** X4: on every route, a response with status 400, 401 or 403 leaves the
    store exactly as it was. *)
Theorem client_error_leaves_store (e : env) (r : request) (st : store) :
  400 <= status (fst (handle e r st)) < 500 ->
  snd (handle e r st) = st.
Proof.
  destruct r as [b|b|b|b|b|h]; simpl; unfold_handlers; run_handler;
    repeat case_match; simplify_eq; simpl; try reflexivity; lia.
Qed.

Lemma client_error_leaves_store_witness :
  let e := sample_env 1000 None in
  let r := Contact (sample_message "Ann" "ann-at-example.com") in
  let st := createTestUser "$2a$10$hash" empty_store in
  400 <= status (fst (handle e r st)) < 500 /\ snd (handle e r st) = st.
Proof.
  intros e r st.
  assert (Hs : status (fst (handle e r st)) = 400) by (vm_compute; reflexivity).
  assert (H : 400 <= status (fst (handle e r st)) < 500) by (rewrite Hs; lia).
  split; [exact H|]. exact (client_error_leaves_store e r st H).
Defined.

(** X5: the store changes only together with a 200 or a 500; a 500 after a
    change can only come from a booking or a contact message, whose record
    is pushed before the notification. *)
Theorem store_change_status (e : env) (r : request) (st : store) :
  snd (handle e r st) <> st ->
  status (fst (handle e r st)) = 200
  \/ (status (fst (handle e r st)) = 500
      /\ exists b, r = BookAppointment b \/ r = Contact b).
Proof.
  destruct r as [b|b|b|b|b|h]; simpl; unfold_handlers; run_handler;
    repeat case_match; simplify_eq; simpl; intros Hchange;
    try (exfalso; apply Hchange; reflexivity); eauto.
Qed.

Lemma store_change_status_witness :
  let e := sample_env 1000 (Some (fun _ => Throw)) in
  let r := Contact (sample_message "Ann" "ann@example.com") in
  snd (handle e r empty_store) <> empty_store
  /\ status (fst (handle e r empty_store)) = 500.
Proof.
  intros e r.
  assert (H : snd (handle e r empty_store) <> empty_store) by (vm_compute; discriminate).
  split; [exact H|].
  destruct (store_change_status e r empty_store H) as [H200|[H500 _]];
    [vm_compute in H200; discriminate H200|exact H500].
Defined.

(** X6: the checks of a registration, in their order: a missing email or
    password, then an address the pattern rejects, then a password that
    fails [validatePassword]; each is answered 400 with its own message and
    nothing is stored. *)
Theorem post_auth_register_invalid (e : env) (b : gmap string value) (st : store) :
  (Js.truthy (prop b "email") && Js.truthy (prop b "password") = false ->
   post_auth_register e b st
   = (error_response 400 "Email and password are required", st))
  /\ (Js.truthy (prop b "email") && Js.truthy (prop b "password") = true ->
      validateEmail (prop b "email") = Ok false ->
      post_auth_register e b st = (error_response 400 "Invalid email format", st))
  /\ (Js.truthy (prop b "email") && Js.truthy (prop b "password") = true ->
      validateEmail (prop b "email") = Ok true ->
      validatePassword e (prop b "password") = false ->
      post_auth_register e b st
      = (error_response 400 "Password must be at least 6 characters", st)).
Proof.
  unfold post_auth_register.
  destruct (Js.truthy (prop b "email")), (Js.truthy (prop b "password"));
    simpl; repeat split; try discriminate; try reflexivity.
  - intros _ Hv. run_handler. rewrite Hv. reflexivity.
  - intros _ Hv Hp. run_handler. rewrite Hv. simpl. rewrite Hp. reflexivity.
Qed.

Lemma post_auth_register_invalid_witness :
  let e := sample_env 1000 None in
  post_auth_register e (sample_credentials "" "12345") empty_store
  = (error_response 400 "Email and password are required", empty_store)
  /\ post_auth_register e (sample_credentials "ann@example" "12345") empty_store
     = (error_response 400 "Invalid email format", empty_store)
  /\ post_auth_register e (sample_credentials "ann@example.com" "12345") empty_store
     = (error_response 400 "Password must be at least 6 characters", empty_store).
Proof.
  intros e. split; [|split].
  - apply (proj1 (post_auth_register_invalid e _ empty_store)).
    vm_compute. reflexivity.
  - apply (proj1 (proj2 (post_auth_register_invalid e _ empty_store)));
      vm_compute; reflexivity.
  - apply (proj2 (proj2 (post_auth_register_invalid e _ empty_store)));
      vm_compute; reflexivity.
Defined.

(** ** Login *)

(** X7: a login that passes the field checks, finds the user and whose
    password [bcrypt.compare] accepts is answered 200 with the signed
    token, the user's id and the stored (lowercase) email; the store is
    untouched. *)
Theorem login_success (e : env) (b : gmap string value) (st : store)
    (email token : string) (u : user) :
  login_validated b email ->
  user_with_email (JsString.toLowerCase email) (users st) = Some u ->
  bcrypt_compare e (prop b "password") (user_password u) = Ok true ->
  jwt_sign e (user_id u) = Ok token ->
  post_auth_login e b st
  = (json_response
       (LoginBody token (user_id u) (JsString.toLowerCase email) "Login successful"),
     st).
Proof.
  intros (Hemail & Hvalid & Hpw) Hsome Hcmp Hsign.
  assert (Hu : user_email u = JsString.toLowerCase email).
  { unfold user_with_email in Hsome. apply List.find_some in Hsome as [_ Heq].
    apply String.eqb_eq, Heq. }
  unfold post_auth_login. rewrite Hemail, Hpw.
  rewrite (truthy_nonempty email (emailRegex_nonempty email Hvalid)).
  rewrite validateEmail_string, Hvalid. run_handler.
  rewrite find_user_by_email, Hsome. simpl. rewrite Hcmp. simpl.
  rewrite Hsign, Hu. reflexivity.
Qed.

Lemma login_success_witness :
  let e := sample_env 1000 None in
  let st := createTestUser "$2a$10$password123" empty_store in
  post_auth_login e (sample_credentials "Test@WellnessHub.com" "password123") st
  = (json_response
       (LoginBody "signed.1.token" 1 "test@wellnesshub.com" "Login successful"),
     st).
Proof.
  intros e st.
  apply (login_success e _ st "Test@WellnessHub.com" "signed.1.token"
           (mkUser 1 "test@wellnesshub.com" "$2a$10$password123" None));
    try (repeat split); vm_compute; reflexivity.
Defined.

(** X8: the login lookup ignores the letter case of the email: two
    requests whose emails have the same lowercase form, with the same
    password, get the same response. *)
Theorem login_ignores_case (e : env) (b1 b2 : gmap string value) (st : store)
    (email1 email2 : string) :
  prop b1 "email" = VStr email1 ->
  prop b2 "email" = VStr email2 ->
  prop b1 "password" = prop b2 "password" ->
  JsString.toLowerCase email1 = JsString.toLowerCase email2 ->
  post_auth_login e b1 st = post_auth_login e b2 st.
Proof.
  intros H1 H2 Hpw Hsame.
  assert (Htruthy : Js.truthy (VStr email1) = Js.truthy (VStr email2)).
  { destruct email1, email2; simpl in *; try reflexivity; discriminate. }
  assert (Hvalid : Regex.test emailRegex email1 = Regex.test emailRegex email2).
  { rewrite <- (emailRegex_toLowerCase email1), Hsame. apply emailRegex_toLowerCase. }
  unfold post_auth_login. rewrite H1, H2, Hpw, !validateEmail_string, Htruthy, Hvalid.
  run_handler. rewrite Hsame. reflexivity.
Qed.

Lemma login_ignores_case_witness :
  let e := sample_env 1000 None in
  let st := createTestUser "$2a$10$password123" empty_store in
  post_auth_login e (sample_credentials "TEST@wellnesshub.com" "password123") st
  = post_auth_login e (sample_credentials "test@WellnessHub.COM" "password123") st.
Proof.
  intros e st.
  apply (login_ignores_case e _ _ st "TEST@wellnesshub.com" "test@WellnessHub.COM");
    vm_compute; reflexivity.
Defined.

(** X9: registration and login compose: after a registration that
    succeeds, a login with an email of the same lowercase form and a
    password that [bcrypt.compare] accepts against the stored hash is
    answered 200, with the id the registration took from the clock and the
    lowercase email. *)
Theorem register_then_login (e1 e2 : env) (b1 b2 : gmap string value)
    (st : store) (email1 email2 password1 hashed token : string) :
  prop b1 "email" = VStr email1 ->
  prop b1 "password" = VStr password1 ->
  Regex.test emailRegex email1 = true ->
  (6 <= String.length password1)%nat ->
  user_with_email (JsString.toLowerCase email1) (users st) = None ->
  bcrypt_hash e1 (VStr password1) = Ok hashed ->
  prop b2 "email" = VStr email2 ->
  JsString.toLowerCase email2 = JsString.toLowerCase email1 ->
  Js.truthy (prop b2 "password") = true ->
  bcrypt_compare e2 (prop b2 "password") hashed = Ok true ->
  jwt_sign e2 (date_now e1) = Ok token ->
  fst (post_auth_login e2 b2 (snd (post_auth_register e1 b1 st)))
  = json_response
      (LoginBody token (date_now e1) (JsString.toLowerCase email1)
         "Login successful").
Proof.
  intros Hb1e Hb1p Hvalid Hlen Hfresh Hhash Hb2e Hsame Hpw Hcmp Hsign.
  rewrite (post_auth_register_strings e1 b1 st email1 password1) by assumption.
  rewrite Hfresh, Hhash. simpl.
  assert (Hvalid2 : Regex.test emailRegex email2 = true).
  { rewrite <- emailRegex_toLowerCase, Hsame, emailRegex_toLowerCase. exact Hvalid. }
  unfold post_auth_login. rewrite Hb2e, Hpw.
  rewrite (truthy_nonempty email2 (emailRegex_nonempty email2 Hvalid2)).
  rewrite validateEmail_string, Hvalid2. run_handler.
  rewrite find_user_by_email, Hsame.
  erewrite user_with_email_snoc; [|exact Hfresh|reflexivity].
  simpl. rewrite Hcmp. simpl. rewrite Hsign. reflexivity.
Qed.

Lemma register_then_login_witness :
  let e1 := sample_env 1000 None in
  let e2 := sample_env 2000 None in
  let st := createTestUser "$2a$10$password123" empty_store in
  fst (post_auth_login e2 (sample_credentials "ANN@example.com" "secret1")
         (snd (post_auth_register e1
                 (sample_credentials "Ann@Example.com" "secret1") st)))
  = json_response
      (LoginBody "signed.1.token" 1000 "ann@example.com" "Login successful").
Proof.
  intros e1 e2 st.
  apply (register_then_login e1 e2 _ _ st "Ann@Example.com" "ANN@example.com"
           "secret1" "$2a$10$secret1" "signed.1.token");
    try (vm_compute; reflexivity); simpl; lia.
Defined.

(** ** Newsletter *)

Lemma subscription_with_email_snoc (email : string) (l : list newsletter)
    (n : newsletter) :
  subscription_with_email email l = None ->
  news_email n = email ->
  subscription_with_email email (l ++ [n]) = Some n.
Proof.
  unfold subscription_with_email. intros Hnone Hn.
  induction l as [|m l IH]; simpl in *.
  - rewrite Hn, String.eqb_refl. reflexivity.
  - destruct (String.eqb (news_email m) email); [discriminate Hnone|].
    apply IH, Hnone.
Qed.

Lemma post_newsletter_string (e : env) (b : gmap string value) (st : store)
    (email : string) :
  prop b "email" = VStr email ->
  Regex.test emailRegex email = true ->
  post_newsletter e b st
  = match subscription_with_email (JsString.toLowerCase email) (newsletters st) with
    | Some _ => (error_response 400 "Email already subscribed", st)
    | None =>
        (json_response (MessageBody "Successfully subscribed to our newsletter!"),
         mkStore (users st) (appointments st) (contacts st)
           (newsletters st
              ++ [mkNewsletter (JsString.toLowerCase email) (new_date e)]))
    end.
Proof.
  intros Hemail Hvalid. unfold post_newsletter. rewrite Hemail.
  rewrite (truthy_nonempty email (emailRegex_nonempty email Hvalid)).
  rewrite validateEmail_string, Hvalid. run_handler.
  destruct (subscription_with_email _ _); reflexivity.
Qed.

(** X10: subscribing a well-formed address that is not yet subscribed
    succeeds and stores its lowercase form; subscribing next an address of
    the same lowercase form is answered 400 "Email already subscribed" and
    stores nothing more. *)
Theorem subscribe_twice (e1 e2 : env) (b1 b2 : gmap string value) (st : store)
    (email1 email2 : string) :
  prop b1 "email" = VStr email1 ->
  prop b2 "email" = VStr email2 ->
  Regex.test emailRegex email1 = true ->
  JsString.toLowerCase email2 = JsString.toLowerCase email1 ->
  subscription_with_email (JsString.toLowerCase email1) (newsletters st) = None ->
  let st1 := snd (post_newsletter e1 b1 st) in
  fst (post_newsletter e1 b1 st)
  = json_response (MessageBody "Successfully subscribed to our newsletter!")
  /\ newsletters st1
     = newsletters st ++ [mkNewsletter (JsString.toLowerCase email1) (new_date e1)]
  /\ post_newsletter e2 b2 st1
     = (error_response 400 "Email already subscribed", st1).
Proof.
  intros Hb1 Hb2 Hvalid Hsame Hfresh st1. unfold st1.
  rewrite (post_newsletter_string e1 b1 st email1) by assumption.
  rewrite Hfresh. simpl. split; [reflexivity|]. split; [reflexivity|].
  assert (Hvalid2 : Regex.test emailRegex email2 = true).
  { rewrite <- emailRegex_toLowerCase, Hsame, emailRegex_toLowerCase. exact Hvalid. }
  rewrite (post_newsletter_string e2 b2 _ email2) by assumption.
  simpl. rewrite Hsame.
  erewrite subscription_with_email_snoc; [reflexivity|exact Hfresh|reflexivity].
Qed.

Lemma subscribe_twice_witness :
  let e1 := sample_env 1000 None in
  let e2 := sample_env 2000 None in
  let b1 := json_object [("email", VStr "A@Example.com")] in
  let b2 := json_object [("email", VStr "a@example.com")] in
  let st1 := snd (post_newsletter e1 b1 empty_store) in
  fst (post_newsletter e1 b1 empty_store)
  = json_response (MessageBody "Successfully subscribed to our newsletter!")
  /\ newsletters st1 = [] ++ [mkNewsletter "a@example.com" 1000]
  /\ post_newsletter e2 b2 st1
     = (error_response 400 "Email already subscribed", st1).
Proof.
  intros e1 e2 b1 b2 st1.
  apply (subscribe_twice e1 e2 b1 b2 empty_store "A@Example.com" "a@example.com");
    vm_compute; reflexivity.
Defined.

(** ** Invariants of the stores *)

Lemma createTestUser_extends (hashedPassword : string) (st : store) :
  extends st (createTestUser hashedPassword st).
Proof.
  unfold createTestUser, extends.
  destruct (user_with_email _ _); simpl; repeat split; try reflexivity.
  apply prefix_app_r. reflexivity.
Qed.

Lemma handle_extends (e : env) (r : request) (st : store) :
  extends st (snd (handle e r st)).
Proof.
  unfold extends.
  destruct r as [b|b|b|b|b|h]; simpl; unfold_handlers; run_handler;
    repeat case_match; simplify_eq; simpl; repeat split;
    try reflexivity; apply prefix_app_r; reflexivity.
Qed.

(** X12: the stores are append-only: whatever requests are handled between
    two states of the server, each of the four arrays of the later state
    starts with the array of the earlier one; no record is ever removed,
    changed or reordered. *)
Theorem stores_append_only (st st' : store) :
  rtc step st st' -> extends st st'.
Proof.
  intros Hsteps. induction Hsteps as [st|st1 st2 st3 Hstep _ IH].
  - repeat split; reflexivity.
  - assert (H12 : extends st1 st2).
    { destruct Hstep; [apply createTestUser_extends|apply handle_extends]. }
    destruct H12 as (Hu & Ha & Hc & Hn), IH as (Hu' & Ha' & Hc' & Hn').
    repeat split; etrans; eassumption.
Qed.

Lemma stores_append_only_witness :
  let st := createTestUser "$2a$10$password123" empty_store in
  let st' := snd (handle (sample_env 1000 None)
                    (BookAppointment (sample_booking "Ann" "ann@example.com")) st) in
  rtc step st st' /\ extends st st'.
Proof.
  intros st st'.
  assert (H : rtc step st st') by (apply rtc_once, step_request).
  split; [exact H|]. exact (stores_append_only st st' H).
Defined.

(** X13: one request adds at most one record to the stores, and removes
    none. *)
Theorem request_adds_at_most_one (e : env) (r : request) (st : store) :
  (records st <= records (snd (handle e r st)) <= records st + 1)%nat.
Proof.
  unfold records.
  destruct r as [b|b|b|b|b|h]; simpl; unfold_handlers; run_handler;
    repeat case_match; simplify_eq; simpl; rewrite ?length_app; simpl; lia.
Qed.

(** ** Trimming *)

Lemma trimStart_starts_clean (s : string) :
  starts_clean (JsString.trimStart s) = true.
Proof.
  induction s as [|c s IH]; simpl; [reflexivity|].
  destruct (JsString.is_space c) eqn:Hc; [exact IH|]. simpl. rewrite Hc. reflexivity.
Qed.

Lemma trimEnd_starts_clean (s : string) :
  starts_clean s = true -> starts_clean (JsString.trimEnd s) = true.
Proof.
  destruct s as [|c s]; simpl; [reflexivity|]. intros Hc.
  destruct (JsString.trimEnd s); [|exact Hc].
  destruct (JsString.is_space c) eqn:Hs; [discriminate Hc|].
  simpl. rewrite Hs. reflexivity.
Qed.

Lemma trimEnd_ends_clean (s : string) :
  ends_clean (JsString.trimEnd s) = true.
Proof.
  induction s as [|c s IH]; simpl; [reflexivity|].
  destruct (JsString.trimEnd s) as [|d t] eqn:Ht.
  - destruct (JsString.is_space c) eqn:Hc; simpl; [reflexivity|]. rewrite Hc. reflexivity.
  - exact IH.
Qed.

Lemma trim_trimmed (s : string) : trimmed (JsString.trim s).
Proof.
  unfold trimmed, JsString.trim. split.
  - apply trimEnd_starts_clean, trimStart_starts_clean.
  - apply trimEnd_ends_clean.
Qed.

Lemma trimStart_blank (s : string) : blank s = true -> JsString.trimStart s = "".
Proof.
  unfold blank. induction s as [|c s IH]; simpl; [reflexivity|].
  intros H. apply andb_true_iff in H as [Hc Hs]. rewrite Hc. exact (IH Hs).
Qed.

Lemma Js_trim_trimmed (v : value) (s : string) :
  Js.trim v = Ok s -> trimmed s.
Proof. destruct v; simpl; intros [=]; subst. apply trim_trimmed. Qed.

Lemma handle_contacts_trimmed (e : env) (r : request) (st : store) :
  contacts_trimmed st -> contacts_trimmed (snd (handle e r st)).
Proof.
  unfold contacts_trimmed. intros H.
  destruct r as [b|b|b|b|b|h]; simpl; unfold_handlers; run_handler;
    repeat case_match; simplify_eq; simpl; try assumption;
    apply Forall_snoc; try assumption; simpl;
    split; eapply Js_trim_trimmed; eassumption.
Qed.

(** X14: in every reachable state, the name and the message of every stored
    contact carry no white space at either end. *)
Theorem reachable_contacts_trimmed (st : store) :
  reachable st -> contacts_trimmed st.
Proof.
  unfold reachable. intros Hreach.
  apply (rtc_ind_r (R := step) (fun s => contacts_trimmed s) empty_store);
    [| |exact Hreach].
  - constructor.
  - intros st1 st2 _ Hstep IH. destruct Hstep as [hashedPassword st1|e r st1].
    + unfold contacts_trimmed, createTestUser.
      destruct (user_with_email _ _); exact IH.
    + apply handle_contacts_trimmed, IH.
Qed.

Lemma reachable_contacts_trimmed_witness :
  let st := snd (handle (sample_env 1000 None)
                   (Contact (sample_message "  Ann Lee " "ann@example.com"))
                   empty_store) in
  reachable st
  /\ map contact_name (contacts st) = ["Ann Lee"]
  /\ contacts_trimmed st.
Proof.
  intros st.
  assert (H : reachable st) by (apply rtc_once, step_request).
  split; [exact H|]. split; [vm_compute; reflexivity|].
  exact (reachable_contacts_trimmed st H).
Defined.

(** X15: the required-field check of a contact message runs before the
    trimming: a name made of white space only is accepted, and the contact
    is stored with the empty name. *)
Theorem blank_name_is_stored_empty (e : env) (b : gmap string value)
    (st : store) (raw name lowered message : string) :
  prop b "name" = VStr raw ->
  blank raw = true ->
  contact_accepted b name lowered message ->
  contacts (snd (post_contact e b st))
  = contacts st ++ [mkContact (date_now e) "" lowered message (new_date e)].
Proof.
  intros Hraw Hblank Hacc.
  rewrite (post_contact_accepted e b st name lowered message Hacc). simpl.
  destruct Hacc as (_ & _ & Hname & _). rewrite Hraw in Hname. simpl in Hname.
  injection Hname as <-. unfold JsString.trim.
  rewrite (trimStart_blank raw Hblank). reflexivity.
Qed.

Lemma blank_name_is_stored_empty_witness :
  let e := sample_env 1000 None in
  let b := sample_message "   " "ann@example.com" in
  fst (post_contact e b empty_store)
  = json_response (MessageBody "Message sent successfully! We'll get back to you soon.")
  /\ contacts (snd (post_contact e b empty_store))
     = [] ++ [mkContact 1000 "" "ann@example.com" "hello" 1000].
Proof.
  intros e b. split; [vm_compute; reflexivity|].
  apply (blank_name_is_stored_empty e b empty_store "   " "" "ann@example.com" "hello");
    try (repeat split); vm_compute; reflexivity.
Defined.

(** ** The Authorization header *)

Lemma split_spaceless (s : string) :
  spaceless s = true -> JsString.split " " s = [s].
Proof.
  unfold spaceless. induction s as [|c s IH]; simpl; [reflexivity|].
  intros H. apply andb_true_iff in H as [Hc Hs].
  apply negb_true_iff in Hc. rewrite Hc, (IH Hs). reflexivity.
Qed.

Lemma split_first_word (word rest : string) :
  spaceless word = true ->
  JsString.split " " (word +:+ String " " rest) = word :: JsString.split " " rest.
Proof.
  unfold spaceless. induction word as [|c w IH]; intros H.
  - reflexivity.
  - simpl in H. apply andb_true_iff in H as [Hc Hw]. apply negb_true_iff in Hc.
    change (String c w +:+ String " " rest) with (String c (w +:+ String " " rest)).
    simpl. rewrite Hc, (IH Hw). reflexivity.
Qed.

(** X16: the middleware does not look at the authorization scheme: for any
    first word, a header made of that word, one space and a token is judged
    by [jwt.verify] on the token alone. *)
Theorem authorization_scheme_unchecked (e : env) (scheme token : string) :
  spaceless scheme = true ->
  spaceless token = true ->
  token <> "" ->
  authenticateToken e (Some (scheme +:+ String " " token))
  = match jwt_verify e token with
    | inl _ => inl (error_response 403 "Invalid token")
    | inr user => inr user
    end.
Proof.
  intros Hscheme Htoken Hne. unfold authenticateToken, bearer_token.
  replace (String.eqb (scheme +:+ String " " token) "") with false
    by (destruct scheme; reflexivity).
  rewrite (split_first_word scheme token Hscheme), (split_spaceless token Htoken).
  simpl. destruct token; [contradiction|reflexivity].
Qed.

Lemma authorization_scheme_unchecked_witness :
  authenticateToken (sample_env 0 None) (Some "Basic signed.1.token")
  = inr (mkPayload 1 0 86400).
Proof.
  apply (authorization_scheme_unchecked (sample_env 0 None) "Basic" "signed.1.token");
    [reflexivity|reflexivity|discriminate].
Defined.

(** X17: a header without a second word carries no token: a header with no
    space at all, and a header whose first word is followed by two spaces,
    are answered 401 "Access token required" whatever follows, without
    [jwt.verify] being consulted. *)
Theorem header_without_token (e : env) (word rest : string) :
  spaceless word = true ->
  authenticateToken e (Some word)
  = inl (error_response 401 "Access token required")
  /\ authenticateToken e (Some (word +:+ String " " (String " " rest)))
     = inl (error_response 401 "Access token required").
Proof.
  intros Hword. unfold authenticateToken, bearer_token. split.
  - destruct (String.eqb word ""); [reflexivity|].
    rewrite (split_spaceless word Hword). reflexivity.
  - replace (String.eqb (word +:+ String " " (String " " rest)) "") with false
      by (destruct word; reflexivity).
    rewrite (split_first_word word _ Hword). reflexivity.
Qed.

Lemma header_without_token_witness :
  authenticateToken (sample_env 0 None) (Some "signed.1.token")
  = inl (error_response 401 "Access token required")
  /\ authenticateToken (sample_env 0 None) (Some "Bearer  signed.1.token")
     = inl (error_response 401 "Access token required").
Proof.
  split.
  - apply (proj1 (header_without_token (sample_env 0 None) "signed.1.token" ""
                    eq_refl)).
  - apply (proj2 (header_without_token (sample_env 0 None) "Bearer" "signed.1.token"
                    eq_refl)).
Defined.

(** ** The test account and the summary *)

Lemma user_with_email_app (email : string) (l k : list user) (u : user) :
  user_with_email email l = Some u -> user_with_email email (l ++ k) = Some u.
Proof.
  unfold user_with_email. induction l as [|v l IH]; simpl; [discriminate|].
  destruct (String.eqb (user_email v) email); [tauto|exact IH].
Qed.

(** X18: once the test account exists, its address is taken: a
    registration with an address whose lowercase form is
    [test@wellnesshub.com] and a password of six characters or more is
    answered 400 "User already exists" and stores nothing. *)
Theorem test_account_is_reserved (e : env) (b : gmap string value) (st : store)
    (hashedPassword email password : string) :
  prop b "email" = VStr email ->
  prop b "password" = VStr password ->
  JsString.toLowerCase email = "test@wellnesshub.com" ->
  (6 <= String.length password)%nat ->
  post_auth_register e b (createTestUser hashedPassword st)
  = (error_response 400 "User already exists", createTestUser hashedPassword st).
Proof.
  intros Hemail Hpassword Hlower Hlen.
  assert (Hvalid : Regex.test emailRegex email = true).
  { rewrite <- emailRegex_toLowerCase, Hlower. reflexivity. }
  rewrite (post_auth_register_strings e b _ email password) by assumption.
  rewrite Hlower.
  assert (Hsome : exists u, user_with_email "test@wellnesshub.com"
                              (users (createTestUser hashedPassword st)) = Some u).
  { unfold createTestUser. simpl.
    destruct (user_with_email "test@wellnesshub.com" (users st)) as [u|] eqn:Hfind.
    - exists u. apply user_with_email_app, Hfind.
    - eexists. apply user_with_email_snoc; [exact Hfind|reflexivity]. }
  destruct Hsome as [u ->]. reflexivity.
Qed.

Lemma test_account_is_reserved_witness :
  let st := createTestUser "$2a$10$password123" empty_store in
  post_auth_register (sample_env 1000 None)
    (sample_credentials "Test@WellnessHub.com" "letmein") st
  = (error_response 400 "User already exists", st).
Proof.
  intros st.
  apply (test_account_is_reserved (sample_env 1000 None) _ empty_store
           "$2a$10$password123" "Test@WellnessHub.com" "letmein");
    try (vm_compute; reflexivity); simpl; lia.
Defined.

Lemma slice_neg_length {A : Type} (n : nat) (l : list A) :
  (0 < n)%nat ->
  List.length (Js.slice (- Z.of_nat n) l) = Nat.min n (List.length l)
  /\ Js.slice (- Z.of_nat n) l `suffix_of` l.
Proof.
  intros Hn. unfold Js.slice.
  replace (- Z.of_nat n <? 0) with true by (symmetry; apply Z.ltb_lt; lia).
  split.
  - rewrite length_skipn. lia.
  - exists (firstn (Z.to_nat (Z.max (Z.of_nat (List.length l) + - Z.of_nat n) 0)) l).
    symmetry. apply firstn_skipn.
Qed.

(** X19: the summary lists at most five recent appointments and at most
    five recent contacts: each list is the end of its store and holds five
    records, or the whole store when it has fewer. *)
Theorem admin_stats_recent (st : store) :
  exists recentAppointments recentContacts,
    payload (admin_stats st)
    = StatsBody (List.length (users st)) (List.length (appointments st))
        (List.length (contacts st)) (List.length (newsletters st))
        recentAppointments recentContacts
    /\ List.length recentAppointments = Nat.min 5 (List.length (appointments st))
    /\ recentAppointments `suffix_of` appointments st
    /\ List.length recentContacts = Nat.min 5 (List.length (contacts st))
    /\ recentContacts `suffix_of` contacts st.
Proof.
  exists (Js.slice (-5) (appointments st)), (Js.slice (-5) (contacts st)).
  split; [reflexivity|].
  change (-5) with (- Z.of_nat 5).
  destruct (slice_neg_length 5 (appointments st)) as [Hla Hsa]; [lia|].
  destruct (slice_neg_length 5 (contacts st)) as [Hlc Hsc]; [lia|].
  auto.
Qed.

(** ** The frontend client *)

(** X20: only [bookAppointment] skips the status check.  When [fetch]
    resolves with a status outside 200-299, [bookAppointment] resolves with
    whatever [json()] gives (the server's error body included), while
    [sendContact], [subscribeNewsletter], [login] and [register] throw
    "HTTP error! status: N" and drop the body. *)
Theorem status_check_of_clients (reply : http_reply)
    (data : gmap string value) (v w : value) :
  reply_ok reply = false ->
  let fetch := fun _ : http_request => @inr js_error http_reply reply in
  let failure :=
    @inl js_error body
      (new_Error ("HTTP error! status: " +:+ pretty (reply_status reply))) in
  api_bookAppointment fetch data = reply_json reply
  /\ api_sendContact fetch data = failure
  /\ api_subscribeNewsletter fetch v = failure
  /\ api_login fetch v w = failure
  /\ api_register fetch v w = failure.
Proof.
  intros Hok fetch failure.
  unfold api_bookAppointment, api_sendContact, api_subscribeNewsletter,
    api_login, api_register, post_checked, fetch. rewrite Hok. simpl.
  repeat split; reflexivity.
Qed.

Lemma status_check_of_clients_witness :
  let reply := mkReply 400 (inr (ErrorBody "Invalid email format")) in
  let fetch := fun _ : http_request => @inr js_error http_reply reply in
  api_bookAppointment fetch (sample_booking "Ann" "ann") = inr (ErrorBody "Invalid email format")
  /\ api_sendContact fetch (sample_message "Ann" "ann")
     = inl (new_Error "HTTP error! status: 400").
Proof.
  intros reply fetch.
  destruct (status_check_of_clients reply (sample_booking "Ann" "ann") VNull VNull eq_refl)
    as (Hbook & _).
  destruct (status_check_of_clients reply (sample_message "Ann" "ann") VNull VNull eq_refl)
    as (_ & Hcontact & _).
  split; [exact Hbook|exact Hcontact].
Defined.

(** X21: [login] resolves exactly when [fetch] resolves with a status in
    200-299 and the JSON of the reply can be read; it then returns that
    JSON.  In every other case it throws. *)
Theorem api_login_resolves_iff (fetch : http_request -> js_error + http_reply)
    (email password : value) (data : body) :
  api_login fetch email password = inr data
  <-> exists reply,
      fetch (mkRequest (API_BASE +:+ "/auth/login")
               (json_object [("email", email); ("password", password)]))
      = inr reply
      /\ reply_ok reply = true
      /\ reply_json reply = inr data.
Proof.
  unfold api_login, post_checked, catch_connection. split.
  - destruct (fetch _) as [err|reply].
    + destruct (_ && _); discriminate.
    + destruct (reply_ok reply) eqn:Hok; simpl.
      * destruct (reply_json reply) as [err|d] eqn:Hjson.
        -- destruct (_ && _); discriminate.
        -- intros [= ->]. exists reply. auto.
      * discriminate.
  - intros (reply & -> & Hok & Hjson). rewrite Hok, Hjson. reflexivity.
Qed.

Lemma api_login_resolves_iff_witness :
  let e := sample_env 1000 None in
  let st := createTestUser "$2a$10$password123" empty_store in
  api_login (answered_by (post_auth_login e) st)
    (VStr "test@wellnesshub.com") (VStr "password123")
  = inr (LoginBody "signed.1.token" 1 "test@wellnesshub.com" "Login successful").
Proof.
  intros e st.
  apply (api_login_resolves_iff (answered_by (post_auth_login e) st)
           (VStr "test@wellnesshub.com") (VStr "password123")).
  eexists. split; [reflexivity|]. split; vm_compute; reflexivity.
Defined.

Lemma post_auth_login_status (e : env) (b : gmap string value) (st : store) :
  let s := status (fst (post_auth_login e b st)) in
  s = 200 \/ s = 400 \/ s = 401 \/ s = 500.
Proof.
  unfold post_auth_login. run_handler.
  repeat case_match; simplify_eq; simpl; auto.
Qed.

Lemma post_auth_login_unauthorized (e : env) (b : gmap string value) (st : store) :
  authentication_failure e b st ->
  fst (post_auth_login e b st) = error_response 401 "Invalid credentials".
Proof.
  intros [email (Hemail & Hvalid & Hpw) Hnone
         |email u (Hemail & Hvalid & Hpw) Hsome Hcmp];
    unfold post_auth_login; rewrite Hemail, Hpw;
    rewrite (truthy_nonempty email (emailRegex_nonempty email Hvalid));
    rewrite validateEmail_string, Hvalid; run_handler;
    rewrite find_user_by_email.
  - rewrite Hnone. reflexivity.
  - rewrite Hsome. simpl. rewrite Hcmp. reflexivity.
Qed.

(** X22: the client's [login] against the server's login route: it returns
    the server's body when the server answers 200, and otherwise throws an
    error that carries the status only; a login that fails authentication
    reaches the caller as "HTTP error! status: 401", without the server's
    message. *)
Theorem client_login_against_server (e : env) (st : store)
    (email password : value) :
  let b := json_object [("email", email); ("password", password)] in
  let r := fst (post_auth_login e b st) in
  api_login (answered_by (post_auth_login e) st) email password
  = (if status r =? 200 then inr (payload r)
     else inl (new_Error ("HTTP error! status: " +:+ pretty (status r))))
  /\ (authentication_failure e b st ->
      api_login (answered_by (post_auth_login e) st) email password
      = inl (new_Error "HTTP error! status: 401")).
Proof.
  intros b r.
  assert (Hgen : api_login (answered_by (post_auth_login e) st) email password
                 = (if status r =? 200 then inr (payload r)
                    else inl (new_Error
                                ("HTTP error! status: " +:+ pretty (status r))))).
  { unfold api_login, post_checked, answered_by, reply_ok. cbn [request_body reply_status reply_json].
    fold b. fold r.
    destruct (post_auth_login_status e b st) as [H|[H|[H|H]]];
      fold r in H; rewrite H; reflexivity. }
  split; [exact Hgen|].
  intros Hfail. rewrite Hgen. unfold r.
  rewrite (post_auth_login_unauthorized e b st Hfail). reflexivity.
Qed.

Lemma client_login_against_server_witness :
  let e := sample_env 1000 None in
  let st := createTestUser "$2a$10$password123" empty_store in
  authentication_failure e
    (json_object [("email", VStr "test@wellnesshub.com"); ("password", VStr "guess")]) st
  /\ api_login (answered_by (post_auth_login e) st)
       (VStr "test@wellnesshub.com") (VStr "guess")
     = inl (new_Error "HTTP error! status: 401").
Proof.
  intros e st.
  assert (H : authentication_failure e
                (json_object [("email", VStr "test@wellnesshub.com");
                              ("password", VStr "guess")]) st).
  { apply wrong_password with (email := "test@wellnesshub.com")
      (u := mkUser 1 "test@wellnesshub.com" "$2a$10$password123" None);
      [repeat split| |]; vm_compute; reflexivity. }
  split; [exact H|].
  exact (proj2 (client_login_against_server e st (VStr "test@wellnesshub.com")
                  (VStr "guess")) H).
Defined.

Lemma post_appointments_rejected (e : env) (b : gmap string value) (st : store) :
  booking_fields_present b = false
  \/ validateEmail (prop b "email") = Ok false ->
  exists msg, fst (post_appointments e b st) = error_response 400 msg.
Proof.
  unfold booking_fields_present, post_appointments. intros H.
  destruct (Js.truthy (prop b "firstName")); [|run_handler; eauto].
  destruct (Js.truthy (prop b "lastName")); [|run_handler; eauto].
  destruct (Js.truthy (prop b "email")); [|run_handler; eauto].
  destruct (Js.truthy (prop b "phone")); [|run_handler; eauto].
  destruct (Js.truthy (prop b "service")); [|run_handler; eauto].
  destruct (Js.truthy (prop b "date")); [|run_handler; eauto].
  destruct (Js.truthy (prop b "time")); [|run_handler; eauto].
  destruct H as [H|H]; [discriminate H|].
  run_handler. rewrite H. simpl. eauto.
Qed.

Lemma post_contact_rejected (e : env) (b : gmap string value) (st : store) :
  contact_fields_present b = false
  \/ validateEmail (prop b "email") = Ok false ->
  exists msg, fst (post_contact e b st) = error_response 400 msg.
Proof.
  unfold contact_fields_present, post_contact. intros H.
  destruct (Js.truthy (prop b "name")); [|run_handler; eauto].
  destruct (Js.truthy (prop b "email")); [|run_handler; eauto].
  destruct (Js.truthy (prop b "message")); [|run_handler; eauto].
  destruct H as [H|H]; [discriminate H|].
  run_handler. rewrite H. simpl. eauto.
Qed.

(** X23: invalid input seen from the client.  A booking that fails
    validation makes [bookAppointment] resolve, with the server's [{error}]
    body as its value; a contact message that fails validation makes
    [sendContact] throw "HTTP error! status: 400". *)
Theorem invalid_input_through_clients (e : env) (st : store)
    (data : gmap string value) :
  (booking_fields_present data = false
   \/ validateEmail (prop data "email") = Ok false ->
   exists msg,
     api_bookAppointment (answered_by (post_appointments e) st) data
     = inr (ErrorBody msg))
  /\ (contact_fields_present data = false
      \/ validateEmail (prop data "email") = Ok false ->
      api_sendContact (answered_by (post_contact e) st) data
      = inl (new_Error "HTTP error! status: 400")).
Proof.
  split; intros H.
  - destruct (post_appointments_rejected e data st H) as [msg Hmsg].
    exists msg. unfold api_bookAppointment, answered_by. simpl.
    rewrite Hmsg. reflexivity.
  - destruct (post_contact_rejected e data st H) as [msg Hmsg].
    unfold api_sendContact, post_checked, answered_by, reply_ok. simpl.
    rewrite Hmsg. reflexivity.
Qed.

Lemma invalid_input_through_clients_witness :
  let e := sample_env 1000 None in
  (exists msg,
      api_bookAppointment (answered_by (post_appointments e) empty_store)
        (sample_booking "Ann" "ann-at-example.com")
      = inr (ErrorBody msg))
  /\ api_sendContact (answered_by (post_contact e) empty_store)
       (sample_message "Ann" "ann-at-example.com")
     = inl (new_Error "HTTP error! status: 400").
Proof.
  intros e. split.
  - apply (proj1 (invalid_input_through_clients e empty_store
                    (sample_booking "Ann" "ann-at-example.com"))).
    right. vm_compute. reflexivity.
  - apply (proj2 (invalid_input_through_clients e empty_store
                    (sample_message "Ann" "ann-at-example.com"))).
    right. vm_compute. reflexivity.
Defined.

(** ** Passwords *)

(** X24: [validatePassword] accepts a string exactly when it has six
    characters or more, and rejects every number, boolean, [null] and
    [undefined]. *)
Theorem validatePassword_strings (e : env) :
  (forall s, validatePassword e (VStr s) = true <-> (6 <= String.length s)%nat)
  /\ (forall n, validatePassword e (VNum n) = false)
  /\ (forall flag, validatePassword e (VBool flag) = false)
  /\ validatePassword e VNull = false
  /\ validatePassword e VUndefined = false.
Proof.
  unfold validatePassword, ge_6. repeat split; simpl.
  - intros H. apply andb_true_iff in H as [_ H]. apply Z.leb_le in H. lia.
  - intros H. apply andb_true_iff. split.
    + destruct s; [simpl in H; lia|reflexivity].
    + apply Z.leb_le. lia.
  - intros n. apply andb_false_r.
  - intros flag. apply andb_false_r.
Qed.

(** X25: when [fetch] itself rejects, [bookAppointment], [sendContact] and
    [subscribeNewsletter] throw the same error again; [login] and
    [register] replace a [TypeError] whose message mentions "fetch" by
    "Cannot connect to server. Please make sure the backend is running."
    and throw any other error again unchanged. *)
Theorem connection_errors (error : js_error) (data : gmap string value)
    (v w : value) :
  let fetch := fun _ : http_request => @inl js_error http_reply error in
  let replaced :=
    @inl js_error body
      (new_Error "Cannot connect to server. Please make sure the backend is running.") in
  api_bookAppointment fetch data = inl error
  /\ api_sendContact fetch data = inl error
  /\ api_subscribeNewsletter fetch v = inl error
  /\ (error_name error = "TypeError" ->
      includes "fetch" (error_message error) = true ->
      api_login fetch v w = replaced /\ api_register fetch v w = replaced)
  /\ (error_name error <> "TypeError"
      \/ includes "fetch" (error_message error) = false ->
      api_login fetch v w = inl error /\ api_register fetch v w = inl error).
Proof.
  intros fetch replaced.
  unfold api_bookAppointment, api_sendContact, api_subscribeNewsletter,
    api_login, api_register, post_checked, catch_connection, fetch.
  split; [reflexivity|]. split; [reflexivity|]. split; [reflexivity|]. split.
  - intros -> ->. split; reflexivity.
  - intros [Hname| ->].
    + apply String.eqb_neq in Hname. rewrite Hname. split; reflexivity.
    + rewrite andb_false_r. split; reflexivity.
Qed.

Lemma connection_errors_witness :
  let chrome := mkError "TypeError" "Failed to fetch" in
  let safari := mkError "TypeError" "Load failed" in
  api_login (fun _ => inl chrome) (VStr "ann@example.com") (VStr "secret1")
  = inl (new_Error "Cannot connect to server. Please make sure the backend is running.")
  /\ api_login (fun _ => inl safari) (VStr "ann@example.com") (VStr "secret1")
     = inl safari.
Proof.
  intros chrome safari. split.
  - apply (proj1 (proj2 (proj2 (proj2 (connection_errors chrome ∅
                                            (VStr "ann@example.com") (VStr "secret1")))))
             eq_refl eq_refl).
  - apply (proj2 (proj2 (proj2 (proj2 (connection_errors safari ∅
                                            (VStr "ann@example.com") (VStr "secret1")))))
             (or_intror eq_refl)).
Defined.

Lemma validatePassword_strings_witness :
  validatePassword (sample_env 0 None) (VStr "secret") = true
  /\ validatePassword (sample_env 0 None) (VStr "12345") <> true.
Proof.
  split.
  - apply (proj1 (validatePassword_strings (sample_env 0 None)) "secret").
    simpl. lia.
  - intros H.
    apply (proj1 (validatePassword_strings (sample_env 0 None)) "12345") in H.
    simpl in H. lia.
Defined.

(** ** Emails are lowered before they are stored or compared *)

Lemma lowered_truthy (email1 email2 : string) :
  JsString.toLowerCase email1 = JsString.toLowerCase email2 ->
  Js.truthy (VStr email1) = Js.truthy (VStr email2).
Proof. destruct email1, email2; simpl; try reflexivity; discriminate. Qed.

Lemma lowered_valid (email1 email2 : string) :
  JsString.toLowerCase email1 = JsString.toLowerCase email2 ->
  Regex.test emailRegex email1 = Regex.test emailRegex email2.
Proof.
  intros Hsame. rewrite <- (emailRegex_toLowerCase email1), Hsame.
  apply emailRegex_toLowerCase.
Qed.

Lemma post_auth_login_case (e : env) (b1 b2 : gmap string value) (st : store)
    (email1 email2 : string) :
  prop b1 "email" = VStr email1 ->
  prop b2 "email" = VStr email2 ->
  prop b1 "password" = prop b2 "password" ->
  JsString.toLowerCase email1 = JsString.toLowerCase email2 ->
  post_auth_login e b1 st = post_auth_login e b2 st.
Proof.
  intros H1 H2 Hpw Hsame. unfold post_auth_login.
  rewrite H1, H2, Hpw, !validateEmail_string.
  rewrite (lowered_truthy _ _ Hsame), (lowered_valid _ _ Hsame).
  run_handler. rewrite Hsame. reflexivity.
Qed.

Lemma post_auth_register_case (e : env) (b1 b2 : gmap string value) (st : store)
    (email1 email2 : string) :
  prop b1 "email" = VStr email1 ->
  prop b2 "email" = VStr email2 ->
  prop b1 "password" = prop b2 "password" ->
  JsString.toLowerCase email1 = JsString.toLowerCase email2 ->
  post_auth_register e b1 st = post_auth_register e b2 st.
Proof.
  intros H1 H2 Hpw Hsame. unfold post_auth_register.
  rewrite H1, H2, Hpw, !validateEmail_string.
  rewrite (lowered_truthy _ _ Hsame), (lowered_valid _ _ Hsame).
  run_handler. rewrite Hsame. reflexivity.
Qed.

Lemma post_newsletter_case (e : env) (b1 b2 : gmap string value) (st : store)
    (email1 email2 : string) :
  prop b1 "email" = VStr email1 ->
  prop b2 "email" = VStr email2 ->
  JsString.toLowerCase email1 = JsString.toLowerCase email2 ->
  post_newsletter e b1 st = post_newsletter e b2 st.
Proof.
  intros H1 H2 Hsame. unfold post_newsletter.
  rewrite H1, H2, !validateEmail_string.
  rewrite (lowered_truthy _ _ Hsame), (lowered_valid _ _ Hsame).
  run_handler. rewrite Hsame. reflexivity.
Qed.

(** C7: every operation that stores or compares an email lowers it first.
    Stored: a registration, a subscription, a booking and a contact message
    that are accepted append a record whose email is the [toLowerCase] of
    the request's email.  Compared: the login lookup and the duplicate
    checks of registration and subscription see the request's email through
    its lowercase form only, so two requests whose emails differ in letter
    case alone get the same outcome.  Hence, in every reachable state, no
    stored email field holds a capital letter. *)
Theorem emails_lowered_before_use (e : env) (st : store) :
  (forall b email password hashed,
      prop b "email" = VStr email ->
      prop b "password" = VStr password ->
      Regex.test emailRegex email = true ->
      (6 <= String.length password)%nat ->
      user_with_email (JsString.toLowerCase email) (users st) = None ->
      bcrypt_hash e (VStr password) = Ok hashed ->
      users (snd (post_auth_register e b st))
      = users st
          ++ [mkUser (date_now e) (JsString.toLowerCase email) hashed
                (Some (new_date e))])
  /\ (forall b email,
         prop b "email" = VStr email ->
         Regex.test emailRegex email = true ->
         subscription_with_email (JsString.toLowerCase email) (newsletters st) = None ->
         newsletters (snd (post_newsletter e b st))
         = newsletters st ++ [mkNewsletter (JsString.toLowerCase email) (new_date e)])
  /\ (forall b email lowered,
         prop b "email" = VStr email ->
         booking_valid b lowered ->
         appointments (snd (post_appointments e b st))
         = appointments st ++ [booked e b (JsString.toLowerCase email)])
  /\ (forall b email name lowered message,
         prop b "email" = VStr email ->
         contact_accepted b name lowered message ->
         contacts (snd (post_contact e b st))
         = contacts st
             ++ [mkContact (date_now e) name (JsString.toLowerCase email) message
                   (new_date e)])
  /\ (forall b1 b2 email1 email2,
         prop b1 "email" = VStr email1 ->
         prop b2 "email" = VStr email2 ->
         JsString.toLowerCase email1 = JsString.toLowerCase email2 ->
         (prop b1 "password" = prop b2 "password" ->
          post_auth_login e b1 st = post_auth_login e b2 st
          /\ post_auth_register e b1 st = post_auth_register e b2 st)
         /\ post_newsletter e b1 st = post_newsletter e b2 st)
  /\ (reachable st -> emails_lowercase st).
Proof.
  split; [|split; [|split; [|split; [|split]]]].
  - intros b email password hashed Hemail Hpassword Hvalid Hlen Hfresh Hhash.
    rewrite (post_auth_register_strings e b st email password) by assumption.
    rewrite Hfresh, Hhash. reflexivity.
  - intros b email Hemail Hvalid Hfresh.
    rewrite (post_newsletter_string e b st email) by assumption.
    rewrite Hfresh. reflexivity.
  - intros b email lowered Hemail Hvalid.
    rewrite (post_appointments_store e b st lowered Hvalid). simpl.
    destruct Hvalid as (_ & _ & Hlower). rewrite Hemail in Hlower.
    injection Hlower as <-. reflexivity.
  - intros b email name lowered message Hemail Hacc.
    rewrite (post_contact_accepted e b st name lowered message Hacc). simpl.
    destruct Hacc as (_ & _ & _ & Hlower & _). rewrite Hemail in Hlower.
    injection Hlower as <-. reflexivity.
  - intros b1 b2 email1 email2 H1 H2 Hsame. split.
    + intros Hpw. split.
      * exact (post_auth_login_case e b1 b2 st email1 email2 H1 H2 Hpw Hsame).
      * exact (post_auth_register_case e b1 b2 st email1 email2 H1 H2 Hpw Hsame).
    + exact (post_newsletter_case e b1 b2 st email1 email2 H1 H2 Hsame).
  - apply reachable_emails_lowercase.
Qed.

Lemma emails_lowered_before_use_witness :
  let e := sample_env 1000 None in
  let st := createTestUser "$2a$10$password123" empty_store in
  let upper := sample_credentials "TEST@WellnessHub.com" "password123" in
  let lower := sample_credentials "test@wellnesshub.com" "password123" in
  let ann := sample_credentials "Ann@Example.COM" "secret1" in
  reachable st
  /\ emails_lowercase st
  /\ map user_email (users (snd (post_auth_register e ann st)))
     = ["test@wellnesshub.com"; "ann@example.com"]
  /\ fst (post_auth_login e upper st)
     = json_response
         (LoginBody "signed.1.token" 1 "test@wellnesshub.com" "Login successful")
  /\ post_auth_login e upper st = post_auth_login e lower st
  /\ fst (post_auth_register e upper st)
     = error_response 400 "User already exists"
  /\ post_auth_register e upper st = post_auth_register e lower st.
Proof.
  intros e st upper lower ann.
  destruct (emails_lowered_before_use e st)
    as (Hregister & _ & _ & _ & Hcase & Hinv).
  assert (Hreach : reachable st) by (apply rtc_once, step_startup).
  assert (Hsame : post_auth_login e upper st = post_auth_login e lower st
                  /\ post_auth_register e upper st = post_auth_register e lower st).
  { apply (proj1 (Hcase upper lower "TEST@WellnessHub.com" "test@wellnesshub.com"
                    eq_refl eq_refl eq_refl)).
    reflexivity. }
  split; [exact Hreach|]. split; [exact (Hinv Hreach)|].
  split.
  { rewrite (Hregister ann "Ann@Example.COM" "secret1" "$2a$10$secret1");
      try (vm_compute; reflexivity). simpl. lia. }
  split; [vm_compute; reflexivity|]. split; [exact (proj1 Hsame)|].
  split; [vm_compute; reflexivity|exact (proj2 Hsame)].
Defined.
